(** * semantic-release-slack-with-files: the [success] step of the plugin

    A shallow embedding of [src/index.js].  The plugin exports one async
    function, [success(pluginConfig, context)], that posts a release
    announcement to Slack, uploads the declared assets in the thread of that
    announcement, rewrites the announcement with the download links, and on
    a failure annotates thread and announcement before it rethrows.

    Strings are Rocq [string]s, read as the UTF-8 bytes of the JavaScript
    string.  JavaScript objects that are iterated with [Object.entries] are
    association lists in property-creation order.  The Slack client, the
    file system and the logger are a [World] of oracles; every call that
    the function makes on them is recorded, with its outcome, in a trace. *)

From Stdlib Require Import String Ascii List Bool Arith Lia NArith.
From Stdlib Require Import Permutation.
Import ListNotations.
Open Scope string_scope.

(** ** JavaScript string primitives used by the source *)

Module JsString.

Definition LF : ascii := "010"%char.
Definition nl : string := String LF "".

(** [s.startsWith(p)] *)
Definition startsWith (p s : string) : bool := String.prefix p s.

Fixpoint drop (n : nat) (s : string) : string :=
  match n, s with
  | O, _ => s
  | S k, String _ s' => drop k s'
  | S _, EmptyString => EmptyString
  end.

(** [s.split('\n')]: never empty, the empty string gives one empty line. *)
Fixpoint split_nl (s : string) : list string :=
  match s with
  | EmptyString => [EmptyString]
  | String c s' =>
      if Ascii.eqb c LF then EmptyString :: split_nl s'
      else match split_nl s' with
           | l :: ls => String c l :: ls
           | [] => [String c EmptyString]
           end
  end.

(** [a.join(sep)] *)
Definition join (sep : string) (a : list string) : string :=
  String.concat sep a.

(** [s.toLowerCase()] on the ASCII letters.  The source uses the result
    only to test, with [startsWith], for two ASCII markers.  Outside ASCII
    the lower case of a character has an ASCII letter in two cases only,
    U+212A (k, which no marker has) and U+0130 (an i followed by U+0307,
    which no marker has after an i), so the test comes out as it does in
    JavaScript. *)
Definition lower_ascii (c : ascii) : ascii :=
  let n := nat_of_ascii c in
  if ((65 <=? n)%nat && (n <=? 90)%nat)%bool then ascii_of_nat (n + 32) else c.

Fixpoint toLowerCase (s : string) : string :=
  match s with
  | EmptyString => EmptyString
  | String c s' => String (lower_ascii c) (toLowerCase s')
  end.

(** *** White space, as [String.prototype.trim] strips it

    WhiteSpace and LineTerminator of ECMAScript, each as its UTF-8 bytes:
    TAB, LF, VT, FF, CR, SP, U+00A0, U+1680, U+2000..U+200A, U+2028,
    U+2029, U+202F, U+205F, U+3000, U+FEFF. *)
Definition b (n : nat) : ascii := ascii_of_nat n.
Definition s1 (x : nat) : string := String (b x) EmptyString.
Definition s2 (x y : nat) : string := String (b x) (s1 y).
Definition s3 (x y z : nat) : string := String (b x) (s2 y z).

Definition white_space : list string :=
  [ s1 9; s1 10; s1 11; s1 12; s1 13; s1 32;
    s2 194 160;
    s3 225 154 128;
    s3 226 128 128; s3 226 128 129; s3 226 128 130; s3 226 128 131;
    s3 226 128 132; s3 226 128 133; s3 226 128 134; s3 226 128 135;
    s3 226 128 136; s3 226 128 137; s3 226 128 138;
    s3 226 128 168; s3 226 128 169; s3 226 128 175;
    s3 226 129 159;
    s3 227 128 128;
    s3 239 187 191 ].

Fixpoint rev_string (acc s : string) : string :=
  match s with
  | EmptyString => acc
  | String c s' => rev_string (String c acc) s'
  end.
Definition rev (s : string) : string := rev_string EmptyString s.

(** The rest of [s] after the first entry of [ws] that starts it. *)
Fixpoint strip_one (ws : list string) (s : string) : option string :=
  match ws with
  | [] => None
  | w :: ws' =>
      if String.prefix w s then Some (drop (String.length w) s)
      else strip_one ws' s
  end.

Fixpoint strip_all (ws : list string) (fuel : nat) (s : string) : string :=
  match fuel with
  | O => s
  | S f =>
      match strip_one ws s with
      | Some r => strip_all ws f r
      | None => s
      end
  end.

Definition trimStart (s : string) : string :=
  strip_all white_space (String.length s) s.

Definition trimEnd (s : string) : string :=
  rev (strip_all (map rev white_space) (String.length s) (rev s)).

(** [s.trim()] *)
Definition trim (s : string) : string := trimEnd (trimStart s).

(** *** [String.prototype.replace] with a global regular expression

    The two regular expressions of the source match one literal text each
    and have no capture group.  The replacement is a string, so
    [GetSubstitution] expands the dollar patterns in it: [$$] is a dollar
    sign, [$&] the matched text, [$`] the text before the match and [$']
    the text after it; without capture groups every other dollar sign
    stands for itself. *)
Fixpoint getSubstitution (matched before after repl : string) : string :=
  match repl with
  | EmptyString => EmptyString
  | String c r =>
      if Ascii.eqb c "$" then
        match r with
        | String d r' =>
            if Ascii.eqb d "$" then
              String "$" (getSubstitution matched before after r')
            else if Ascii.eqb d "&" then
              matched ++ getSubstitution matched before after r'
            else if Ascii.eqb d "`" then
              before ++ getSubstitution matched before after r'
            else if Ascii.eqb d "'" then
              after ++ getSubstitution matched before after r'
            else String c (getSubstitution matched before after r)
        | EmptyString => String c EmptyString
        end
      else String c (getSubstitution matched before after r)
  end.

(** The scan of [s.replace(/pat/g, repl)] for a literal, non-empty [pat]:
    [before] is the text already passed, [skip] counts the characters of
    the current match that are still to be passed over. *)
Fixpoint replace_scan (pat repl : string) (skip : nat) (before s : string)
  : string :=
  match s with
  | EmptyString => EmptyString
  | String c s' =>
      let before' := before ++ String c EmptyString in
      match skip with
      | S k => replace_scan pat repl k before' s'
      | O =>
          if String.prefix pat s then
            getSubstitution pat before (drop (String.length pat) s) repl
              ++ replace_scan pat repl (String.length pat - 1) before' s'
          else String c (replace_scan pat repl 0 before' s')
      end
  end.

Definition replace_g (pat repl s : string) : string :=
  replace_scan pat repl 0 EmptyString s.

End JsString.

Import JsString.

(** ** JavaScript values and objects *)

(** The dynamically typed settings that the source only tests for
    nullishness ([??]) and truthiness. *)
Inductive js_value :=
| JUndefined
| JBool (v : bool)
| JString (v : string).

Definition truthy (v : js_value) : bool :=
  match v with
  | JUndefined => false
  | JBool v => v
  | JString v => negb (String.eqb v "")
  end.

(** [v ?? d] *)
Definition nullish (v d : js_value) : js_value :=
  match v with
  | JUndefined => d
  | _ => v
  end.

(** [s || d] for an optional string: absent and empty are both falsy. *)
Definition or_else (s : option string) (d : string) : string :=
  match s with
  | Some v => if String.eqb v "" then d else v
  | None => d
  end.

(** An optional string inside a template literal. *)
Definition to_string (s : option string) : string :=
  match s with
  | Some v => v
  | None => "undefined"
  end.

Definition truthy_string (s : option string) : bool :=
  match s with
  | Some v => negb (String.eqb v "")
  | None => false
  end.

(** An object with string values, as its own properties in creation order. *)
Module JsObject.

Definition t := list (string * string).

(** Write the own property [k]: an existing property keeps its place. *)
Fixpoint set_own (o : t) (k v : string) : t :=
  match o with
  | [] => [(k, v)]
  | (k', v') :: o' =>
      if String.eqb k' k then (k, v) :: o' else (k', v') :: set_own o' k v
  end.

(** [o[k] = v] on an object made by an object literal.  The key
    [__proto__] is the accessor of [Object.prototype]: assigning a string
    to it changes nothing and creates no property. *)
Definition set (o : t) (k v : string) : t :=
  if String.eqb k "__proto__" then o else set_own o k v.

(** The value of the own property [k]. *)
Fixpoint get (o : t) (k : string) : option string :=
  match o with
  | [] => None
  | (k', v') :: o' => if String.eqb k' k then Some v' else get o' k
  end.

Definition is_digit (c : ascii) : bool :=
  let n := nat_of_ascii c in ((48 <=? n)%nat && (n <=? 57)%nat)%bool.

Fixpoint all_digits (s : string) : bool :=
  match s with
  | EmptyString => true
  | String c s' => (is_digit c && all_digits s')%bool
  end.

Fixpoint decimal (acc : N) (s : string) : N :=
  match s with
  | EmptyString => acc
  | String c s' => decimal (acc * 10 + N.of_nat (nat_of_ascii c - 48))%N s'
  end.

(** An array index is a canonical numeric string below 2^32 - 1. *)
Definition array_index (k : string) : option N :=
  match k with
  | EmptyString => None
  | String c k' =>
      if (all_digits k
          && (negb (Ascii.eqb c "0") || String.eqb k' "")
          && (String.length k <=? 10)%nat)%bool
      then
        let n := decimal 0 k in
        if (n <=? 4294967294)%N then Some n else None
      else None
  end.

Fixpoint insert_index (n : N) (p : string * string)
  (l : list (N * (string * string))) : list (N * (string * string)) :=
  match l with
  | [] => [(n, p)]
  | (m, q) :: l' =>
      if (n <=? m)%N then (n, p) :: l else (m, q) :: insert_index n p l'
  end.

Fixpoint index_properties (o : t) : list (N * (string * string)) :=
  match o with
  | [] => []
  | p :: o' =>
      match array_index (fst p) with
      | Some n => insert_index n p (index_properties o')
      | None => index_properties o'
      end
  end.

Definition is_index (p : string * string) : bool :=
  match array_index (fst p) with Some _ => true | None => false end.

(** [Object.entries(o)]: array indices in ascending order, then the other
    keys in creation order. *)
Definition entries (o : t) : list (string * string) :=
  map snd (index_properties o) ++ filter (fun p => negb (is_index p)) o.

End JsObject.

(** ** Inputs of [success] *)

Module Env.
(** [process.env] *)
Record t := { SLACK_TOKEN : option string; SLACK_CHANNEL : option string }.
End Env.

Module PrereleaseConfig.
Record t := {
  enabled : js_value;
  changelog : js_value;
  lastCommitText : js_value;
  lastLine : option string;
  message : option string }.
(** [{}] *)
Definition empty : t :=
  {| enabled := JUndefined; changelog := JUndefined;
     lastCommitText := JUndefined; lastLine := None; message := None |}.
End PrereleaseConfig.

Module PluginConfig.
Record t := {
  assets : option JsObject.t;
  prerelease : option PrereleaseConfig.t;
  changelog : js_value;
  lastCommitText : js_value;
  lastLine : option string;
  message : option string }.
End PluginConfig.

Module NextRelease.
Record t := { version : option string; notes : option string }.
End NextRelease.

Module Commit.
Record t := { message : string }.
End Commit.

Module Branch.
Record t := { name : string; prerelease : js_value }.
End Branch.

Module Context.
Record t := {
  nextRelease : NextRelease.t;
  commits : list Commit.t;
  branch : Branch.t }.
End Context.

(** ** The Slack client, the file system and the logger *)

Module JsError.
Record t := { name : string; message : string }.
(** [new Error(m)] *)
Definition Error (m : string) : t := {| name := "Error"; message := m |}.
Definition TypeError (m : string) : t :=
  {| name := "TypeError"; message := m |}.
End JsError.

Inductive completion (A : Type) :=
| Normal (a : A)
| Throw (e : JsError.t).
Arguments Normal {A} a.
Arguments Throw {A} e.

Module PostArgs.
Record t := {
  channel : string;
  thread_ts : option string;
  text : string;
  mrkdwn : bool }.
End PostArgs.

Module UploadArgs.
Record t := {
  file : string;
  filename : string;
  title : string;
  initial_comment : string;
  channel_id : string;
  thread_ts : option string }.
End UploadArgs.

Module UpdateArgs.
Record t := {
  channel : string;
  ts : option string;
  text : string;
  mrkdwn : bool }.
End UpdateArgs.

Module MessageObj.
Record t := { text : option string }.
End MessageObj.

Module PostResponse.
Record t := { ts : option string; message : option MessageObj.t }.
End PostResponse.

Module UploadedFile.
Record t := { id : option string; url_private_download : option string }.
End UploadedFile.

Module FileGroup.
Record t := { files : option (list UploadedFile.t) }.
End FileGroup.

Module UploadResponse.
Record t := { ok : bool; files : option (list FileGroup.t) }.
End UploadResponse.

Inductive log_level := LogInfo | LogWarn | LogError.

(** What the run did to the outside, each call with its outcome. *)
Inductive event :=
| Log (level : log_level) (msg : string)
| PostMessage (args : PostArgs.t) (outcome : completion PostResponse.t)
| UploadV2 (args : UploadArgs.t) (outcome : completion UploadResponse.t)
| Update (args : UpdateArgs.t) (outcome : completion unit).

Definition is_transport (e : event) : bool :=
  match e with
  | Log _ _ => false
  | _ => true
  end.

Definition is_update (e : event) : bool :=
  match e with
  | Update _ _ => true
  | _ => false
  end.

(** The collaborators.  The Slack client and [fs.existsSync] answer from
    what happened so far, so that the same call may succeed once and fail
    later.  [fast-glob] gives the matches of a pattern, none when nothing
    matches, or rejects (an empty pattern, a directory that cannot be
    read); [path.resolve] and [path.basename] are the functions of Node. *)
Record World := {
  fastGlob : string -> completion (list string);
  existsSync : list event -> string -> bool;
  path_resolve : string -> string;
  path_basename : string -> string;
  chat_postMessage : list event -> PostArgs.t -> completion PostResponse.t;
  files_uploadV2 : list event -> UploadArgs.t -> completion UploadResponse.t;
  chat_update : list event -> UpdateArgs.t -> completion unit }.

(** ** The state of one run and its monad *)

(** The [let] variables of [success] that the [catch] block and the steps
    share, and the trace. *)
Record State := {
  initialMessage : option PostResponse.t;
  threadTs : option string;
  downloadLinks : list string;
  trace : list event }.

Definition initial_state : State :=
  {| initialMessage := None; threadTs := None; downloadLinks := [];
     trace := [] |}.

Definition M (A : Type) : Type := State -> completion A * State.

Definition ret {A} (a : A) : M A := fun st => (Normal a, st).

Definition throw {A} (e : JsError.t) : M A := fun st => (Throw e, st).

Definition bind {A B} (m : M A) (k : A -> M B) : M B :=
  fun st =>
    match m st with
    | (Normal a, st') => k a st'
    | (Throw e, st') => (Throw e, st')
    end.

(** [try { body } catch (error) { handler }]: what the body assigned before
    it threw is what the handler sees. *)
Definition try_catch {A} (body : M A) (handler : JsError.t -> M A) : M A :=
  fun st =>
    match body st with
    | (Normal a, st') => (Normal a, st')
    | (Throw e, st') => handler e st'
    end.

Declare Scope run_scope.
Delimit Scope run_scope with run.
Notation "x <- m ;; k" := (bind m (fun x => k))
  (at level 61, m at next level, right associativity) : run_scope.
Notation "m ;; k" := (bind m (fun _ => k))
  (at level 61, right associativity) : run_scope.
Open Scope run_scope.

Definition get_state : M State := fun st => (Normal st, st).

Definition emit (e : event) : M unit :=
  fun st =>
    (Normal tt,
     {| initialMessage := initialMessage st; threadTs := threadTs st;
        downloadLinks := downloadLinks st; trace := trace st ++ [e] |}).

Definition set_initialMessage (r : PostResponse.t) : M unit :=
  fun st =>
    (Normal tt,
     {| initialMessage := Some r; threadTs := threadTs st;
        downloadLinks := downloadLinks st; trace := trace st |}).

Definition set_threadTs (ts : option string) : M unit :=
  fun st =>
    (Normal tt,
     {| initialMessage := initialMessage st; threadTs := ts;
        downloadLinks := downloadLinks st; trace := trace st |}).

(** [downloadLinks.push(line)] *)
Definition push_downloadLink (line : string) : M unit :=
  fun st =>
    (Normal tt,
     {| initialMessage := initialMessage st; threadTs := threadTs st;
        downloadLinks := downloadLinks st ++ [line]; trace := trace st |}).

(** [await f(args)]: ask the world, record call and outcome, then go on or
    throw as the call did. *)
Definition await {A B} (f : list event -> A -> completion B)
  (ev : A -> completion B -> event) (args : A) : M B :=
  fun st =>
    let r := f (trace st) args in
    (r,
     {| initialMessage := initialMessage st; threadTs := threadTs st;
        downloadLinks := downloadLinks st;
        trace := trace st ++ [ev args r] |}).

(** ** [success(pluginConfig, context)] *)

Definition version_placeholder : string := "${nextRelease.version}".
Definition notes_placeholder : string := "${nextRelease.notes}".

Definition caution_suffix : string :=
  ":x: *An issue occurred with this release. Users are advised NOT to use this version.*".

Section Success.

Variable w : World.
Variable env : Env.t.
Variable pluginConfig : PluginConfig.t.
Variable context : Context.t.

Definition nextRelease : NextRelease.t := Context.nextRelease context.
Definition commits : list Commit.t := Context.commits context.
Definition branch : Branch.t := Context.branch context.

Definition slackToken : option string := Env.SLACK_TOKEN env.
(** Read as a string only after the guard found it set. *)
Definition slackChannel : string := or_else (Env.SLACK_CHANNEL env) "".

Definition rawAssets : JsObject.t :=
  match PluginConfig.assets pluginConfig with
  | Some o => o
  | None => []
  end.

Definition isPrerelease : bool := truthy (Branch.prerelease branch).

Definition prereleaseConfig : PrereleaseConfig.t :=
  match PluginConfig.prerelease pluginConfig with
  | Some c => c
  | None => PrereleaseConfig.empty
  end.

Definition prereleaseEnabled : js_value :=
  nullish (PrereleaseConfig.enabled prereleaseConfig) (JBool false).

Definition includeChangelog : js_value :=
  if isPrerelease
  then nullish (PrereleaseConfig.changelog prereleaseConfig) (JBool false)
  else nullish (PluginConfig.changelog pluginConfig) (JBool false).

Definition includeLastCommitText : js_value :=
  if isPrerelease
  then nullish (PrereleaseConfig.lastCommitText prereleaseConfig) (JBool false)
  else nullish (PluginConfig.lastCommitText pluginConfig) (JBool false).

Definition lastLine : string :=
  if isPrerelease
  then or_else (PrereleaseConfig.lastLine prereleaseConfig) ""
  else or_else (PluginConfig.lastLine pluginConfig) "".

Definition rawMessageTemplate : string :=
  if isPrerelease
  then or_else (PrereleaseConfig.message prereleaseConfig)
         ("Prerelease: " ++ to_string (NextRelease.version nextRelease))
  else or_else (PluginConfig.message pluginConfig)
         ("New release: " ++ to_string (NextRelease.version nextRelease)).

(** Helper function to replace placeholders *)
Definition interpolateString (template : string) : string :=
  replace_g notes_placeholder (or_else (NextRelease.notes nextRelease) "")
    (replace_g version_placeholder
       (or_else (NextRelease.version nextRelease) "") template).

(** The loop of [resolveAssets] over [Object.entries(rawAssets)], with its
    two accumulators.  A glob call that rejects ends the loop with its
    error. *)
Fixpoint resolve_loop (declared : list (string * string))
  (resolvedAssets : JsObject.t) (missingAssets : list string)
  : completion (JsObject.t * list string) :=
  match declared with
  | [] => Normal (resolvedAssets, missingAssets)
  | (rawPath, label) :: rest =>
      let interpolatedPath := interpolateString rawPath in
      match fastGlob w interpolatedPath with
      | Throw e => Throw e
      | Normal matchedFiles =>
          if (List.length matchedFiles =? 0)%nat
          then resolve_loop rest resolvedAssets
                 (missingAssets ++ [interpolatedPath])
          else resolve_loop rest
                 (fold_left (fun o file => JsObject.set o file label)
                    matchedFiles resolvedAssets)
                 missingAssets
      end
  end.

Definition missing_assets_message (missingAssets : list string) : string :=
  "The following required assets were not found:" ++ nl
    ++ join nl missingAssets.

Definition resolveAssets : completion JsObject.t :=
  match resolve_loop (JsObject.entries rawAssets) [] [] with
  | Throw e => Throw e
  | Normal (resolvedAssets, missingAssets) =>
      if (0 <? List.length missingAssets)%nat
      then Throw (JsError.Error (missing_assets_message missingAssets))
      else Normal resolvedAssets
  end.

(** The predicate of the [filter] over the lines of the commit message. *)
Definition keep_line (line : string) : bool :=
  (negb (String.eqb (trim line) "")
   && negb (startsWith "signed-off-by:" (toLowerCase (trim line)))
   && negb (startsWith "co-authored-by:" (toLowerCase (trim line))))%bool.

Definition lastCommitBody : string :=
  if (truthy includeLastCommitText && (0 <? List.length commits)%nat)%bool
  then
    match commits with
    | c :: _ =>
        let lastCommitMessage := Commit.message c in
        let commitLines := filter keep_line (tl (split_nl lastCommitMessage)) in
        trim (join nl commitLines)
    | [] => ""
    end
  else "".

(** Helper function to format the full release message *)
Definition formatMessage : string :=
  let message := interpolateString rawMessageTemplate ++ nl ++ nl in
  let message :=
    if (truthy includeLastCommitText
        && negb (String.eqb lastCommitBody ""))%bool
    then message ++ "*📖 Description:*" ++ nl ++ lastCommitBody ++ nl ++ nl
    else message in
  let message :=
    if (truthy includeChangelog
        && truthy_string (NextRelease.notes nextRelease))%bool
    then message ++ "*📝 Changelog:*" ++ nl
           ++ to_string (NextRelease.notes nextRelease) ++ nl ++ nl
    else message in
  message.

Definition lift {A} (c : completion A) : M A := fun st => (c, st).

Definition postMessage (args : PostArgs.t) : M PostResponse.t :=
  await (chat_postMessage w) PostMessage args.

Definition uploadV2 (args : UploadArgs.t) : M UploadResponse.t :=
  await (files_uploadV2 w) UploadV2 args.

Definition update (args : UpdateArgs.t) : M unit :=
  await (chat_update w) Update args.

Definition log (level : log_level) (msg : string) : M unit :=
  emit (Log level msg).

(** [fileResponse.ok && fileResponse.files && fileResponse.files[0] &&
    fileResponse.files[0].files && fileResponse.files[0].files[0]] *)
Definition uploaded_file (fileResponse : UploadResponse.t)
  : option UploadedFile.t :=
  if UploadResponse.ok fileResponse then
    match UploadResponse.files fileResponse with
    | Some (group :: _) =>
        match FileGroup.files group with
        | Some (uploadedFile :: _) => Some uploadedFile
        | _ => None
        end
    | _ => None
    end
  else None.

Definition download_link (label : string) (uploadedFile : UploadedFile.t)
  : string :=
  "• *" ++ label ++ "*: <"
    ++ to_string (UploadedFile.url_private_download uploadedFile)
    ++ "|Download>".

Definition upload_args (resolvedPath label : string) (thread : option string)
  : UploadArgs.t :=
  {| UploadArgs.file := resolvedPath;
     UploadArgs.filename := path_basename w resolvedPath;
     UploadArgs.title := label;
     UploadArgs.initial_comment := "📎 " ++ label;
     UploadArgs.channel_id := slackChannel;
     UploadArgs.thread_ts := thread |}.

(** 2. Upload all resolved files as replies to the initial message *)
Fixpoint upload_loop (resolved : list (string * string)) : M unit :=
  match resolved with
  | [] => ret tt
  | (filePath, label) :: rest =>
      let resolvedPath := path_resolve w filePath in
      st <- get_state ;;
      if existsSync w (trace st) resolvedPath then
        log LogInfo ("Uploading " ++ label ++ "...") ;;
        fileResponse <- uploadV2 (upload_args resolvedPath label (threadTs st)) ;;
        match uploaded_file fileResponse with
        | Some uploadedFile =>
            log LogInfo ("Uploaded " ++ label ++ ": "
                           ++ to_string (UploadedFile.id uploadedFile)) ;;
            push_downloadLink (download_link label uploadedFile)
        | None => log LogError ("Failed to upload " ++ label ++ ".")
        end ;;
        upload_loop rest
      else
        throw (JsError.Error ("Resolved file not found: " ++ resolvedPath))
  end.

Definition updated_text (links : list string) : string :=
  let updatedMessage :=
    formatMessage ++ "*📥 Download Links:*" ++ nl ++ join nl links in
  if negb (String.eqb lastLine "")
  then updatedMessage ++ nl ++ nl ++ lastLine
  else updatedMessage.

(** 3. Update the message with download links and the lastLine *)
Definition update_step : M unit :=
  st <- get_state ;;
  if (0 <? List.length (downloadLinks st))%nat then
    update {| UpdateArgs.channel := slackChannel;
              UpdateArgs.ts := threadTs st;
              UpdateArgs.text := updated_text (downloadLinks st);
              UpdateArgs.mrkdwn := true |} ;;
    log LogInfo "Release message updated with download links and last line."
  else
    log LogWarn "No files uploaded. The initial message was not updated.".

(** 1. Post the initial release message *)
Definition initial_post_args : PostArgs.t :=
  {| PostArgs.channel := slackChannel;
     PostArgs.thread_ts := None;
     PostArgs.text := formatMessage;
     PostArgs.mrkdwn := true |}.

(** The body of the [try] block. *)
Definition try_block : M unit :=
  assets <- lift resolveAssets ;;
  r <- postMessage initial_post_args ;;
  set_initialMessage r ;;
  log LogInfo (":rocket: Initial release message sent: "
                 ++ to_string (PostResponse.ts r)) ;;
  set_threadTs (PostResponse.ts r) ;;
  upload_loop (JsObject.entries assets) ;;
  update_step.

Definition thread_reply_text (error : JsError.t) : string :=
  ":x: An error occurred during the release process:" ++ nl
    ++ "`" ++ JsError.message error ++ "`".

(** The [catch] block. *)
Definition catch_block (error : JsError.t) : M unit :=
  log LogError ("Error during file upload or message update: "
                  ++ JsError.message error) ;;
  st <- get_state ;;
  (if truthy_string (threadTs st) then
     postMessage {| PostArgs.channel := slackChannel;
                    PostArgs.thread_ts := threadTs st;
                    PostArgs.text := thread_reply_text error;
                    PostArgs.mrkdwn := true |} ;;
     ret tt
   else ret tt) ;;
  match initialMessage st with
  | Some posted =>
      match PostResponse.message posted with
      | Some m =>
          let updatedMessageWithError :=
            to_string (MessageObj.text m) ++ nl ++ nl ++ caution_suffix in
          update {| UpdateArgs.channel := slackChannel;
                    UpdateArgs.ts := PostResponse.ts posted;
                    UpdateArgs.text := updatedMessageWithError;
                    UpdateArgs.mrkdwn := true |}
      | None =>
          throw (JsError.TypeError
                   "Cannot read properties of undefined (reading 'text')")
      end
  | None => ret tt
  end ;;
  throw error.

Definition credentials_error : JsError.t :=
  JsError.Error
    "SLACK_TOKEN or SLACK_CHANNEL is not set in the environment variables.".

Definition success : M unit :=
  if (negb (truthy_string slackToken)
      || negb (truthy_string (Env.SLACK_CHANNEL env)))%bool
  then throw credentials_error
  else if (negb (truthy prereleaseEnabled) && isPrerelease)%bool
  then log LogInfo ("Skipping release for prerelease branch: "
                      ++ Branch.name branch)
  else try_catch try_block catch_block.

(** One invocation: the completion the caller observes and the trace. *)
Definition run : completion unit * list event :=
  let (c, st) := success initial_state in (c, trace st).

End Success.

(** ** The earlier [success]

    The repository keeps an earlier version of the plugin: no prerelease
    settings, no asset resolution (the declared paths are uploaded as they
    are), a missing file is only warned about, and the [catch] block logs
    the error without rethrowing it. *)

Module Legacy.

Section Success.

Variable w : World.
Variable env : Env.t.
Variable pluginConfig : PluginConfig.t.
Variable context : Context.t.

Definition nextRelease : NextRelease.t := Context.nextRelease context.
Definition commits : list Commit.t := Context.commits context.

Definition slackToken : option string := Env.SLACK_TOKEN env.
Definition slackChannel : string := or_else (Env.SLACK_CHANNEL env) "".

Definition assets : JsObject.t :=
  match PluginConfig.assets pluginConfig with
  | Some o => o
  | None => []
  end.

Definition includeChangelog : js_value :=
  nullish (PluginConfig.changelog pluginConfig) (JBool false).

Definition includeLastCommitText : js_value :=
  nullish (PluginConfig.lastCommitText pluginConfig) (JBool false).

Definition lastLine : string := or_else (PluginConfig.lastLine pluginConfig) "".

Definition rawMessageTemplate : string :=
  or_else (PluginConfig.message pluginConfig)
    ("New release: " ++ to_string (NextRelease.version nextRelease)).

(** Helper function to replace placeholders *)
Definition interpolateMessage (template : string) : string :=
  replace_g notes_placeholder (or_else (NextRelease.notes nextRelease) "")
    (replace_g version_placeholder
       (or_else (NextRelease.version nextRelease) "") template).

Definition lastCommitBody : string :=
  if (truthy includeLastCommitText && (0 <? List.length commits)%nat)%bool
  then
    match commits with
    | c :: _ =>
        let lastCommitMessage := Commit.message c in
        let commitLines := filter keep_line (tl (split_nl lastCommitMessage)) in
        trim (join nl commitLines)
    | [] => ""
    end
  else "".

(** Helper function to format the full release message *)
Definition formatMessage : string :=
  let message := interpolateMessage rawMessageTemplate ++ nl ++ nl in
  let message :=
    if (truthy includeLastCommitText
        && negb (String.eqb lastCommitBody ""))%bool
    then message ++ "*📖 Description:*" ++ nl ++ lastCommitBody ++ nl ++ nl
    else message in
  let message :=
    if (truthy includeChangelog
        && truthy_string (NextRelease.notes nextRelease))%bool
    then message ++ "*📝 Changelog:*" ++ nl
           ++ to_string (NextRelease.notes nextRelease) ++ nl ++ nl
    else message in
  message.

Definition initial_post_args : PostArgs.t :=
  {| PostArgs.channel := slackChannel;
     PostArgs.thread_ts := None;
     PostArgs.text := formatMessage;
     PostArgs.mrkdwn := true |}.

(** 2. Upload all files as replies to the initial message *)
Fixpoint upload_loop (threadTs : option string)
  (declared : list (string * string)) : M unit :=
  match declared with
  | [] => ret tt
  | (filePath, label) :: rest =>
      let resolvedPath := path_resolve w filePath in
      st <- get_state ;;
      (if existsSync w (trace st) resolvedPath then
         log LogInfo ("Uploading " ++ label ++ "...") ;;
         fileResponse <- uploadV2 w (upload_args w env resolvedPath label threadTs) ;;
         match uploaded_file fileResponse with
         | Some uploadedFile =>
             log LogInfo ("Uploaded " ++ label ++ ": "
                            ++ to_string (UploadedFile.id uploadedFile)) ;;
             push_downloadLink (download_link label uploadedFile)
         | None => log LogError ("Failed to upload " ++ label ++ ".")
         end
       else log LogWarn ("File not found: " ++ resolvedPath)) ;;
      upload_loop threadTs rest
  end.

Definition updated_text (links : list string) : string :=
  let updatedMessage :=
    formatMessage ++ "*📥 Download Links:*" ++ nl ++ join nl links in
  if negb (String.eqb lastLine "")
  then updatedMessage ++ nl ++ nl ++ lastLine
  else updatedMessage.

(** 3. Update the message with download links and the lastLine *)
Definition update_step (threadTs : option string) : M unit :=
  st <- get_state ;;
  if (0 <? List.length (downloadLinks st))%nat then
    update w {| UpdateArgs.channel := slackChannel;
                UpdateArgs.ts := threadTs;
                UpdateArgs.text := updated_text (downloadLinks st);
                UpdateArgs.mrkdwn := true |} ;;
    log LogInfo "Release message updated with download links and last line."
  else
    log LogWarn "No files uploaded. The initial message was not updated.".

(** The body of the [try] block; [initialMessage] and [threadTs] are
    constants of the block. *)
Definition try_block : M unit :=
  initialMessage <- postMessage w initial_post_args ;;
  log LogInfo (":rocket: Initial release message sent: "
                 ++ to_string (PostResponse.ts initialMessage)) ;;
  let threadTs := PostResponse.ts initialMessage in
  upload_loop threadTs (JsObject.entries assets) ;;
  update_step threadTs.

(** The [catch] block: the error is logged and dropped. *)
Definition catch_block (error : JsError.t) : M unit :=
  log LogError ("Error during file upload or message update: "
                  ++ JsError.message error).

Definition success : M unit :=
  if (negb (truthy_string slackToken)
      || negb (truthy_string (Env.SLACK_CHANNEL env)))%bool
  then throw credentials_error
  else try_catch try_block catch_block.

Definition run : completion unit * list event :=
  let (c, st) := success initial_state in (c, trace st).

End Success.

End Legacy.

(** ** Vocabulary of the statements *)

(** Both guards of [success] let the run through to the [try] block. *)
Definition try_entered (env : Env.t) (cfg : PluginConfig.t) (ctx : Context.t)
  : bool :=
  (truthy_string (Env.SLACK_TOKEN env)
   && truthy_string (Env.SLACK_CHANNEL env)
   && negb (negb (truthy (prereleaseEnabled cfg)) && isPrerelease ctx))%bool.

(** The call recorded by an event came back without throwing. *)
Definition returned (ev : event) : bool :=
  match ev with
  | PostMessage _ (Throw _) => false
  | UploadV2 _ (Throw _) => false
  | Update _ (Throw _) => false
  | _ => true
  end.




(** The state in which the [try] block of a run ends. *)
Definition try_state (w : World) (env : Env.t) (cfg : PluginConfig.t)
  (ctx : Context.t) : State :=
  snd (try_block w env cfg ctx initial_state).

(** The release notes as text, empty when absent. *)
Definition notes_text (ctx : Context.t) : string :=
  or_else (NextRelease.notes (nextRelease ctx)) "".

(** The state right after the initial post returned [r] and was logged. *)
Definition posted_state (env : Env.t) (cfg : PluginConfig.t)
  (ctx : Context.t) (r : PostResponse.t) : State :=
  {| initialMessage := Some r;
     threadTs := PostResponse.ts r;
     downloadLinks := [];
     trace := [PostMessage (initial_post_args env cfg ctx) (Normal r);
               Log LogInfo (":rocket: Initial release message sent: "
                              ++ to_string (PostResponse.ts r))] |}.

Definition add_events (st : State) (evs : list event) : State :=
  {| initialMessage := initialMessage st; threadTs := threadTs st;
     downloadLinks := downloadLinks st; trace := trace st ++ evs |}.

Definition add_link (st : State) (line : string) : State :=
  {| initialMessage := initialMessage st; threadTs := threadTs st;
     downloadLinks := downloadLinks st ++ [line]; trace := trace st |}.


(** The download-link lines that a stretch of the trace stands for: one
    for each upload that returned an ok-shaped response, in order. *)
Definition links_of_events (evs : list event) : list string :=
  flat_map
    (fun ev =>
       match ev with
       | UploadV2 args (Normal resp) =>
           match uploaded_file resp with
           | Some f => [download_link (UploadArgs.title args) f]
           | None => []
           end
       | _ => []
       end)
    evs.

(** The text of the update call, in the words of the update step: the
    composed body, the Download Links section with the link lines in the
    order given, and the last line after a blank line when there is one. *)
Definition links_section (links : list string) : string :=
  "*📥 Download Links:*" ++ nl ++ join nl links.

Definition update_args (env : Env.t) (cfg : PluginConfig.t) (ctx : Context.t)
  (r : PostResponse.t) (links : list string) : UpdateArgs.t :=
  {| UpdateArgs.channel := slackChannel env;
     UpdateArgs.ts := PostResponse.ts r;
     UpdateArgs.text :=
       formatMessage cfg ctx ++ links_section links
         ++ (if String.eqb (lastLine cfg ctx) "" then ""
             else nl ++ nl ++ lastLine cfg ctx);
     UpdateArgs.mrkdwn := true |}.

(** The pattern of a declaration, interpolated. *)
Definition declared_pattern (ctx : Context.t) (d : string * string) : string :=
  interpolateString ctx (fst d).

(** The glob call of the declaration returns [files]. *)
Definition globbed (w : World) (ctx : Context.t) (d : string * string)
  (files : list string) : Prop :=
  fastGlob w (declared_pattern ctx d) = Normal files.

(** Every glob call of the declarations returns. *)
Definition globs_return (w : World) (ctx : Context.t)
  (declared : list (string * string)) : Prop :=
  forall d, In d declared -> exists files, globbed w ctx d files.

(** The glob call of the pattern returns, with no file. *)
Definition matched_nothing (w : World) (pattern : string) : bool :=
  match fastGlob w pattern with
  | Normal [] => true
  | _ => false
  end.

(** The interpolated patterns that matched nothing, in the order of the
    declarations given. *)
Definition missing_patterns (w : World) (ctx : Context.t)
  (declared : list (string * string)) : list string :=
  filter (matched_nothing w) (map (declared_pattern ctx) declared).

Definition matches (w : World) (ctx : Context.t) (d : string * string)
  (file : string) : bool :=
  match fastGlob w (declared_pattern ctx d) with
  | Normal files => existsb (String.eqb file) files
  | Throw _ => false
  end.

(** The label of the last declaration whose pattern matches [file]. *)
Fixpoint last_label (w : World) (ctx : Context.t)
  (declared : list (string * string)) (file : string) : option string :=
  match declared with
  | [] => None
  | d :: rest =>
      match last_label w ctx rest file with
      | Some l => Some l
      | None => if matches w ctx d file then Some (snd d) else None
      end
  end.

(** ** The last-commit excerpt, in the words of its contract *)

(** A string made of entries of [ws] and nothing else. *)
Inductive made_of (ws : list string) : string -> Prop :=
| made_of_empty : made_of ws ""
| made_of_app (w s : string) :
    In w ws -> made_of ws s -> made_of ws (w ++ s).

(** A whitespace-only string: a sequence of white-space characters. *)
Definition blank (s : string) : Prop := made_of white_space s.

(** No entry of [ws] starts another one, and none is empty. *)
Definition prefix_free (ws : list string) : bool :=
  forallb
    (fun w =>
       forallb
         (fun w' => (negb (String.prefix w w') || String.eqb w w')%bool) ws)
    ws.

Definition no_empty_entry (ws : list string) : bool :=
  forallb (fun w => negb (String.eqb w "")) ws.

(** [marker], in lower case, starts [s] when case is ignored. *)
Fixpoint starts_with_ci (marker s : string) : bool :=
  match marker, s with
  | EmptyString, _ => true
  | String _ _, EmptyString => false
  | String m marker', String c s' =>
      (Ascii.eqb m (lower_ascii c) && starts_with_ci marker' s')%bool
  end.

(** A line that is empty once trimmed. *)
Definition is_blank (line : string) : bool := String.eqb (trim line) "".

(** A line that, trimmed, starts with a trailer marker in any casing. *)
Definition is_trailer (line : string) : bool :=
  (starts_with_ci "signed-off-by:" (trim line)
   || starts_with_ci "co-authored-by:" (trim line))%bool.

(** Split into lines, drop the first, drop the blank lines, drop the
    trailers, join with newlines, trim. *)
Definition excerpt (message : string) : string :=
  let lines := split_nl message in
  let body := tl lines in
  let not_blank := filter (fun l => negb (is_blank l)) body in
  let not_trailer := filter (fun l => negb (is_trailer l)) not_blank in
  trim (join nl not_trailer).

(** ** Occurrences, and templates as pieces *)

(** [pat] occurs in [s]. *)
Definition occurs (pat s : string) : Prop :=
  exists a b, s = a ++ pat ++ b.

Fixpoint occursb (pat s : string) : bool :=
  (String.prefix pat s
   || match s with
      | EmptyString => false
      | String _ s' => occursb pat s'
      end)%bool.

Fixpoint no_dollar (s : string) : bool :=
  match s with
  | EmptyString => true
  | String c s' => (negb (Ascii.eqb c "$") && no_dollar s')%bool
  end.

(** A template written as text and placeholders. *)
Inductive piece :=
| Text (s : string)
| Version
| Notes.

Definition piece_source (p : piece) : string :=
  match p with
  | Text s => s
  | Version => version_placeholder
  | Notes => notes_placeholder
  end.

(** The template that the pieces spell. *)
Definition render (pieces : list piece) : string :=
  fold_right (fun p rest => piece_source p ++ rest) "" pieces.

(** The value of a piece in a release context. *)
Definition piece_value (ctx : Context.t) (p : piece) : string :=
  match p with
  | Text s => s
  | Version => or_else (NextRelease.version (nextRelease ctx)) ""
  | Notes => or_else (NextRelease.notes (nextRelease ctx)) ""
  end.

(** The pieces with every placeholder replaced by its value. *)
Definition fill (ctx : Context.t) (pieces : list piece) : string :=
  fold_right (fun p rest => piece_value ctx p ++ rest) "" pieces.

(** Every dollar sign of the template starts a placeholder: the text
    pieces have none. *)
Definition well_formed (pieces : list piece) : bool :=
  forallb (fun p => match p with Text s => no_dollar s | _ => true end) pieces.

(** The pieces after the first pass, and after the second. *)
Definition version_filled (ctx : Context.t) (p : piece) : piece :=
  match p with
  | Version => Text (piece_value ctx Version)
  | _ => p
  end.

Definition notes_filled (ctx : Context.t) (p : piece) : piece :=
  match p with
  | Notes => Text (piece_value ctx Notes)
  | _ => p
  end.

(** ** Vocabulary of the further properties *)

(** The event is a call on the channel of the run, in the thread of the
    posted message [r] (a log is no call). *)
Definition anchored (env : Env.t) (r : PostResponse.t) (ev : event) : Prop :=
  match ev with
  | Log _ _ => True
  | PostMessage a _ =>
      PostArgs.channel a = slackChannel env
      /\ PostArgs.thread_ts a = PostResponse.ts r
  | UploadV2 a _ =>
      UploadArgs.channel_id a = slackChannel env
      /\ UploadArgs.thread_ts a = PostResponse.ts r
  | Update a _ =>
      UpdateArgs.channel a = slackChannel env
      /\ UpdateArgs.ts a = PostResponse.ts r
  end.

(** The file and the title of every upload call, in order. *)
Definition upload_targets (evs : list event) : list (string * string) :=
  flat_map
    (fun ev =>
       match ev with
       | UploadV2 a _ => [(UploadArgs.file a, UploadArgs.title a)]
       | _ => []
       end)
    evs.

(** What the upload loop is to upload: resolved path and label. *)
Definition resolved_targets (w : World) (resolved : list (string * string))
  : list (string * string) :=
  map (fun d => (path_resolve w (fst d), snd d)) resolved.

(** The value is unset or empty. *)
Definition unset (s : option string) : Prop := or_else s "" = "".

(** An event of the upload loop: a log, or an upload on the channel of the
    run with the thread identifier [thread]. *)
Definition loop_event (env : Env.t) (thread : option string) (ev : event)
  : Prop :=
  match ev with
  | Log _ _ => True
  | UploadV2 a _ =>
      UploadArgs.channel_id a = slackChannel env
      /\ UploadArgs.thread_ts a = thread
  | _ => False
  end.

(** ** Trimmed strings and the lines of the commit body *)

(** No white space starts [s] and none ends it. *)
Definition trimmed (s : string) : Prop :=
  forall w, In w white_space ->
    String.prefix w s = false /\ String.prefix (rev w) (rev s) = false.

Fixpoint no_lf (s : string) : bool :=
  match s with
  | EmptyString => true
  | String c s' => (negb (Ascii.eqb c LF) && no_lf s')%bool
  end.

(** The lines of the message of the first commit, the subject left out;
    none without a commit. *)
Definition body_lines (ctx : Context.t) : list string :=
  match Context.commits ctx with
  | c :: _ => tl (split_nl (Commit.message c))
  | [] => []
  end.

(** The warnings of the earlier upload loop for declared files that are
    not there, one for each. *)
Definition legacy_warnings (w : World) (declared : list (string * string))
  : list event :=
  map (fun d => Log LogWarn ("File not found: " ++ path_resolve w (fst d)))
    declared.

(** ** Concrete invocations *)

Module Scenario.

Definition uploaded : UploadedFile.t :=
  {| UploadedFile.id := Some "F1";
     UploadedFile.url_private_download := Some "https://files/F1" |}.

Definition ok_response : UploadResponse.t :=
  {| UploadResponse.ok := true;
     UploadResponse.files :=
       Some [ {| FileGroup.files := Some [uploaded] |} ] |}.

(** The upload call returns, but without file metadata. *)
Definition anomalous_response : UploadResponse.t :=
  {| UploadResponse.ok := true; UploadResponse.files := Some [] |}.

Definition posted (a : PostArgs.t) : PostResponse.t :=
  {| PostResponse.ts := Some "111.222";
     PostResponse.message :=
       Some {| MessageObj.text := Some (PostArgs.text a) |} |}.

(** The text after the last slash. *)
Fixpoint basename_from (acc s : string) : string :=
  match s with
  | EmptyString => acc
  | String c s' =>
      if Ascii.eqb c "/" then basename_from EmptyString s'
      else basename_from (acc ++ String c EmptyString) s'
  end.

(** What fast-glob throws when it is given an empty pattern. *)
Definition empty_pattern : JsError.t :=
  JsError.TypeError
    "Patterns must be a string (non empty) or an array of strings".

(** A directory with [dist/app.bin] and [dist/app.sig], and a Slack that
    answers every call. *)
Definition world : World :=
  {| fastGlob := fun p =>
       if String.eqb p "" then Throw empty_pattern
       else if String.eqb p "dist/app.bin" then Normal ["dist/app.bin"]
       else if String.eqb p "dist/*"
       then Normal ["dist/app.bin"; "dist/app.sig"]
       else if String.eqb p "*/app.bin" then Normal ["dist/app.bin"]
       else Normal [];
     existsSync := fun _ _ => true;
     path_resolve := fun p => "/repo/" ++ p;
     path_basename := basename_from EmptyString;
     chat_postMessage := fun _ a => Normal (posted a);
     files_uploadV2 := fun _ _ => Normal ok_response;
     chat_update := fun _ _ => Normal tt |}.

Definition slack_down : JsError.t := JsError.Error "slack is down".

Definition upload_failed : JsError.t := JsError.Error "upload failed".

(** The same, but every upload throws. *)
Definition world_upload_throws : World :=
  {| fastGlob := fastGlob world;
     existsSync := existsSync world;
     path_resolve := path_resolve world;
     path_basename := path_basename world;
     chat_postMessage := chat_postMessage world;
     files_uploadV2 := fun _ _ => Throw upload_failed;
     chat_update := chat_update world |}.


Definition env : Env.t :=
  {| Env.SLACK_TOKEN := Some "xoxb-token"; Env.SLACK_CHANNEL := Some "C012" |}.

Definition env_no_token : Env.t :=
  {| Env.SLACK_TOKEN := None; Env.SLACK_CHANNEL := Some "C012" |}.

Definition config : PluginConfig.t :=
  {| PluginConfig.assets := Some [("dist/app.bin", "Binary")];
     PluginConfig.prerelease := None;
     PluginConfig.changelog := JBool true;
     PluginConfig.lastCommitText := JBool true;
     PluginConfig.lastLine := None;
     PluginConfig.message := None |}.

Definition commit_message : string :=
  "fix: bug" ++ nl ++ nl ++ "Details here" ++ nl ++ "Signed-off-by: X".

Definition context : Context.t :=
  {| Context.nextRelease :=
       {| NextRelease.version := Some "1.2.0";
          NextRelease.notes := Some "fix bug" |};
     Context.commits := [ {| Commit.message := commit_message |} ];
     Context.branch :=
       {| Branch.name := "main"; Branch.prerelease := JBool false |} |}.

Definition context_beta : Context.t :=
  {| Context.nextRelease := Context.nextRelease context;
     Context.commits := Context.commits context;
     Context.branch :=
       {| Branch.name := "beta"; Branch.prerelease := JString "beta" |} |}.

(** The response of the initial post in [world]. *)
Definition initial_response : PostResponse.t :=
  posted (initial_post_args env config context).

(** The state of the run in [world] when the upload loop is over. *)
Definition uploaded_state : State :=
  snd (upload_loop world env [("dist/app.bin", "Binary")]
         (posted_state env config context initial_response)).

(** The file matched by the pattern is gone when the upload loop runs. *)
Definition world_file_gone : World :=
  {| fastGlob := fastGlob world;
     existsSync := fun _ _ => false;
     path_resolve := path_resolve world;
     path_basename := path_basename world;
     chat_postMessage := chat_postMessage world;
     files_uploadV2 := files_uploadV2 world;
     chat_update := chat_update world |}.

(** The upload call returns without file metadata. *)
Definition world_anomalous : World :=
  {| fastGlob := fastGlob world;
     existsSync := existsSync world;
     path_resolve := path_resolve world;
     path_basename := path_basename world;
     chat_postMessage := chat_postMessage world;
     files_uploadV2 := fun _ _ => Normal anomalous_response;
     chat_update := chat_update world |}.

Definition posted_at_start : State :=
  posted_state env config context initial_response.

(** Two declarations whose patterns match the same file. *)
Definition config_overlap : PluginConfig.t :=
  {| PluginConfig.assets :=
       Some [("dist/app.bin", "Binary"); ("*/app.bin", "Application")];
     PluginConfig.prerelease := None;
     PluginConfig.changelog := JBool true;
     PluginConfig.lastCommitText := JBool true;
     PluginConfig.lastLine := None;
     PluginConfig.message := None |}.

(** One declaration that matches two files, and two that match nothing. *)
Definition config_missing : PluginConfig.t :=
  {| PluginConfig.assets :=
       Some [("dist/app-${nextRelease.version}.bin", "Binary");
             ("dist/*", "Files");
             ("docs/manual.pdf", "Manual")];
     PluginConfig.prerelease := None;
     PluginConfig.changelog := JBool true;
     PluginConfig.lastCommitText := JBool true;
     PluginConfig.lastLine := None;
     PluginConfig.message := None |}.

(** A release without a version, and one without notes. *)
Definition context_no_version : Context.t :=
  {| Context.nextRelease :=
       {| NextRelease.version := None; NextRelease.notes := Some "fix bug" |};
     Context.commits := Context.commits context;
     Context.branch := Context.branch context |}.

Definition context_no_notes : Context.t :=
  {| Context.nextRelease :=
       {| NextRelease.version := Some "1.2.0"; NextRelease.notes := None |};
     Context.commits := Context.commits context;
     Context.branch := Context.branch context |}.

(** Release notes with dollar signs in them. *)
Definition context_dollar_notes : Context.t :=
  {| Context.nextRelease :=
       {| NextRelease.version := Some "1.2.0";
          NextRelease.notes := Some "costs $$5, see $&" |};
     Context.commits := Context.commits context;
     Context.branch := Context.branch context |}.

(** Prerelease support enabled, with settings of its own. *)
Definition prerelease_settings : PrereleaseConfig.t :=
  {| PrereleaseConfig.enabled := JBool true;
     PrereleaseConfig.changelog := JBool false;
     PrereleaseConfig.lastCommitText := JUndefined;
     PrereleaseConfig.lastLine := Some "Not for production.";
     PrereleaseConfig.message := None |}.

Definition config_beta : PluginConfig.t :=
  {| PluginConfig.assets := Some [("dist/app.bin", "Binary")];
     PluginConfig.prerelease := Some prerelease_settings;
     PluginConfig.changelog := JBool true;
     PluginConfig.lastCommitText := JBool true;
     PluginConfig.lastLine := Some "Enjoy!";
     PluginConfig.message := Some "Released ${nextRelease.version}" |}.

(** The same assets and prerelease settings, other base settings. *)
Definition config_beta_bare : PluginConfig.t :=
  {| PluginConfig.assets := Some [("dist/app.bin", "Binary")];
     PluginConfig.prerelease := Some prerelease_settings;
     PluginConfig.changelog := JUndefined;
     PluginConfig.lastCommitText := JUndefined;
     PluginConfig.lastLine := None;
     PluginConfig.message := None |}.

(** No asset declared. *)
Definition config_no_assets : PluginConfig.t :=
  {| PluginConfig.assets := None;
     PluginConfig.prerelease := None;
     PluginConfig.changelog := JBool true;
     PluginConfig.lastCommitText := JBool true;
     PluginConfig.lastLine := None;
     PluginConfig.message := None |}.

Definition env_empty_channel : Env.t :=
  {| Env.SLACK_TOKEN := Some "xoxb-token"; Env.SLACK_CHANNEL := Some "" |}.

(** The first post already fails. *)
Definition world_post_throws : World :=
  {| fastGlob := fastGlob world;
     existsSync := existsSync world;
     path_resolve := path_resolve world;
     path_basename := path_basename world;
     chat_postMessage := fun _ _ => Throw slack_down;
     files_uploadV2 := files_uploadV2 world;
     chat_update := chat_update world |}.

(** A pattern that matches nothing, then one that is empty once the
    notes, which the release has not, are filled in. *)
Definition config_empty_pattern : PluginConfig.t :=
  {| PluginConfig.assets :=
       Some [("docs/manual.pdf", "Manual");
             ("${nextRelease.notes}", "Notes");
             ("dist/app.bin", "Binary")];
     PluginConfig.prerelease := None;
     PluginConfig.changelog := JBool true;
     PluginConfig.lastCommitText := JBool true;
     PluginConfig.lastLine := None;
     PluginConfig.message := None |}.

(** Keys of which two are array indices, none matching a file. *)
Definition config_index_keys : PluginConfig.t :=
  {| PluginConfig.assets := Some [("b", "B"); ("10", "Ten"); ("9", "Nine")];
     PluginConfig.prerelease := None;
     PluginConfig.changelog := JBool true;
     PluginConfig.lastCommitText := JBool true;
     PluginConfig.lastLine := None;
     PluginConfig.message := None |}.

Definition update_failed : JsError.t := JsError.Error "update failed".

(** The first [chat.update] throws; a later one returns. *)
Definition world_update_throws : World :=
  {| fastGlob := fastGlob world;
     existsSync := existsSync world;
     path_resolve := path_resolve world;
     path_basename := path_basename world;
     chat_postMessage := chat_postMessage world;
     files_uploadV2 := files_uploadV2 world;
     chat_update := fun h _ =>
       if existsb is_update h then Normal tt else Throw update_failed |}.


End Scenario.

(** * Properties *)

(** ** Strings *)

Lemma append_assoc (a b c : string) : (a ++ b) ++ c = a ++ (b ++ c).
Proof.
  induction a as [|x a IH]; simpl; [reflexivity | now rewrite IH].
Qed.

Lemma append_empty_r (a : string) : a ++ "" = a.
Proof.
  induction a as [|x a IH]; simpl; [reflexivity | now rewrite IH].
Qed.

Lemma prefix_cons (a c : ascii) (m s : string) :
  String.prefix (String a m) (String c s)
  = (Ascii.eqb a c && String.prefix m s)%bool.
Proof.
  cbn. destruct (ascii_dec a c) as [-> | Hne].
  - now rewrite Ascii.eqb_refl.
  - apply Ascii.eqb_neq in Hne. now rewrite Hne.
Qed.

Lemma prefix_app (p r : string) : String.prefix p (p ++ r) = true.
Proof.
  induction p as [| c p IH]; cbn.
  - now destruct r.
  - destruct (ascii_dec c c); [exact IH | congruence].
Qed.

Lemma prefix_split (p s : string) :
  String.prefix p s = true -> s = p ++ drop (String.length p) s.
Proof.
  revert s. induction p as [| c p IH]; intros s H.
  - reflexivity.
  - destruct s as [| d s]; [discriminate |].
    rewrite prefix_cons in H. apply andb_true_iff in H as [Hc Hp].
    apply Ascii.eqb_eq in Hc. subst d. cbn. f_equal. now apply IH.
Qed.

Lemma drop_app (p r : string) : drop (String.length p) (p ++ r) = r.
Proof.
  induction p as [| c p IH]; [reflexivity | exact IH].
Qed.

Lemma prefix_app_l (p a b : string) :
  String.prefix p a = true -> String.prefix p (a ++ b) = true.
Proof.
  intros H. rewrite (prefix_split p a H), append_assoc. apply prefix_app.
Qed.

Lemma length_app (a b : string) :
  String.length (a ++ b) = String.length a + String.length b.
Proof.
  induction a as [| c a IH]; cbn; [reflexivity | now rewrite IH].
Qed.

Lemma app_inv_head (a x y : string) : a ++ x = a ++ y -> x = y.
Proof.
  induction a as [| c a IH]; cbn; intros H; [exact H |].
  injection H as H. now apply IH.
Qed.

(** Two strings that start the same string: one starts the other. *)
Lemma prefix_comparable (a b x y : string) :
  a ++ x = b ++ y ->
  String.prefix a b = true \/ String.prefix b a = true.
Proof.
  revert b. induction a as [| c a IH]; intros b H.
  - left. now destruct b.
  - destruct b as [| d b]; [now right |].
    cbn [append] in H. injection H as -> H.
    rewrite !prefix_cons, Ascii.eqb_refl. cbn [andb]. now apply IH.
Qed.

(** ** The guards of [success] *)

(** C10: the credentials are checked first.  When [SLACK_TOKEN] or
    [SLACK_CHANNEL] is unset, [success] throws the configuration error
    whatever configuration and context it is given, a prerelease branch
    with prerelease support disabled included, and the trace is empty: no
    transport call, no recovery annotation. *)
Theorem credentials_checked_first
  (w : World) (env : Env.t) (cfg : PluginConfig.t) (ctx : Context.t) :
  Env.SLACK_TOKEN env = None \/ Env.SLACK_CHANNEL env = None ->
  run w env cfg ctx = (Throw credentials_error, []).
Proof.
  intros H. unfold run, success, slackToken.
  destruct H as [H | H]; rewrite H; simpl.
  - reflexivity.
  - now rewrite orb_true_r.
Qed.

Lemma credentials_checked_first_witness :
  isPrerelease Scenario.context_beta = true
  /\ truthy (prereleaseEnabled Scenario.config) = false
  /\ run Scenario.world Scenario.env_no_token Scenario.config
       Scenario.context_beta
     = (Throw credentials_error, []).
Proof.
  split; [reflexivity | split; [reflexivity |]].
  apply credentials_checked_first. left. reflexivity.
Defined.

(** C3, as the code has it: with both credentials set, a prerelease branch
    whose prerelease support is disabled makes [success] return normally;
    the one thing it does is log the skip, and no transport call is made. *)
Theorem prerelease_skip
  (w : World) (env : Env.t) (cfg : PluginConfig.t) (ctx : Context.t) :
  truthy_string (Env.SLACK_TOKEN env) = true ->
  truthy_string (Env.SLACK_CHANNEL env) = true ->
  isPrerelease ctx = true ->
  truthy (prereleaseEnabled cfg) = false ->
  run w env cfg ctx
  = (Normal tt,
     [Log LogInfo ("Skipping release for prerelease branch: "
                     ++ Branch.name (branch ctx))])
  /\ existsb is_transport (snd (run w env cfg ctx)) = false.
Proof.
  intros Ht Hc Hp He.
  assert (E : run w env cfg ctx
              = (Normal tt,
                 [Log LogInfo ("Skipping release for prerelease branch: "
                                 ++ Branch.name (branch ctx))])).
  { unfold run, success, slackToken. rewrite Ht, Hc, Hp, He. reflexivity. }
  split; [exact E | now rewrite E].
Qed.

Lemma prerelease_skip_witness :
  run Scenario.world Scenario.env Scenario.config Scenario.context_beta
  = (Normal tt, [Log LogInfo "Skipping release for prerelease branch: beta"])
  /\ existsb is_transport
       (snd (run Scenario.world Scenario.env Scenario.config
               Scenario.context_beta)) = false.
Proof.
  apply prerelease_skip; reflexivity.
Defined.

(** C3 as stated fails without credentials: on a prerelease branch with
    prerelease support disabled, an unset [SLACK_TOKEN] makes [success]
    throw instead of returning. *)
Lemma prerelease_skip_needs_credentials :
  isPrerelease Scenario.context_beta = true
  /\ truthy (prereleaseEnabled Scenario.config) = false
  /\ fst (run Scenario.world Scenario.env_no_token Scenario.config
            Scenario.context_beta) = Throw credentials_error
  /\ fst (run Scenario.world Scenario.env_no_token Scenario.config
            Scenario.context_beta) <> Normal tt.
Proof.
  repeat split; try reflexivity. discriminate.
Qed.

(** ** Failure and recovery *)

(** Reduce the projections of a state that is written out. *)
Tactic Notation "simpl_run" :=
  cbn [trace initialMessage threadTs downloadLinks].
Tactic Notation "simpl_run" "in" hyp(H) :=
  cbn [trace initialMessage threadTs downloadLinks] in H.

Lemma run_entered
  (w : World) (env : Env.t) (cfg : PluginConfig.t) (ctx : Context.t) :
  try_entered env cfg ctx = true ->
  success w env cfg ctx
  = try_catch (try_block w env cfg ctx) (catch_block w env).
Proof.
  unfold try_entered, success, slackToken. intros H.
  apply andb_true_iff in H as [H H3]. apply andb_true_iff in H as [H1 H2].
  rewrite H1, H2. simpl.
  destruct (negb (truthy (prereleaseEnabled cfg)) && isPrerelease ctx)%bool;
    [discriminate | reflexivity].
Qed.





(** ** The message composer *)

Lemma truthy_string_or_else (o : option string) :
  truthy_string o = negb (String.eqb (or_else o "") "").
Proof.
  destruct o as [v |]; simpl; [| reflexivity].
  destruct (String.eqb v "") eqn:E; simpl; [reflexivity | now rewrite E].
Qed.

Lemma to_string_truthy (o : option string) :
  truthy_string o = true -> to_string o = or_else o "".
Proof.
  destruct o as [v |]; simpl; [| discriminate].
  now destruct (String.eqb v "").
Qed.

Lemma andb_negb_eqb_iff (f : bool) (s : string) :
  (f && negb (String.eqb s ""))%bool = true <-> f = true /\ s <> "".
Proof.
  rewrite andb_true_iff, negb_true_iff, String.eqb_neq. reflexivity.
Qed.

Lemma formatMessage_closed_form (cfg : PluginConfig.t) (ctx : Context.t) :
  formatMessage cfg ctx
  = interpolateString ctx (rawMessageTemplate cfg ctx) ++ nl ++ nl
      ++ (if (truthy (includeLastCommitText cfg ctx)
              && negb (String.eqb (lastCommitBody cfg ctx) ""))%bool
          then "*📖 Description:*" ++ nl ++ lastCommitBody cfg ctx ++ nl ++ nl
          else "")
      ++ (if (truthy (includeChangelog cfg ctx)
              && negb (String.eqb (notes_text ctx) ""))%bool
          then "*📝 Changelog:*" ++ nl ++ notes_text ctx ++ nl ++ nl
          else "").
Proof.
  unfold formatMessage. rewrite truthy_string_or_else.
  fold (notes_text ctx).
  destruct (truthy (includeChangelog cfg ctx)
            && negb (String.eqb (notes_text ctx) ""))%bool eqn:Ec.
  - assert (Hn : to_string (NextRelease.notes (nextRelease ctx))
                 = notes_text ctx).
    { apply to_string_truthy. rewrite truthy_string_or_else.
      now apply andb_true_iff in Ec. }
    rewrite Hn.
    destruct (truthy (includeLastCommitText cfg ctx)
              && negb (String.eqb (lastCommitBody cfg ctx) ""))%bool;
      now rewrite !append_assoc.
  - destruct (truthy (includeLastCommitText cfg ctx)
              && negb (String.eqb (lastCommitBody cfg ctx) ""))%bool;
      now rewrite ?append_assoc, ?append_empty_r.
Qed.

(** C6: the composed body is the interpolated template and a blank line,
    then the Description section, then the Changelog section.  The
    Description section is there exactly when the last-commit flag is set
    and the excerpt is not empty, the Changelog section exactly when the
    changelog flag is set and the release notes are not empty; a section
    that is there ends with a blank line, one that is not adds nothing. *)
Theorem formatMessage_sections (cfg : PluginConfig.t) (ctx : Context.t) :
  exists description changelog : string,
    formatMessage cfg ctx
    = interpolateString ctx (rawMessageTemplate cfg ctx) ++ nl ++ nl
        ++ description ++ changelog
    /\ ((truthy (includeLastCommitText cfg ctx) = true
         /\ lastCommitBody cfg ctx <> "")
        /\ description
           = "*📖 Description:*" ++ nl ++ lastCommitBody cfg ctx ++ nl ++ nl
        \/ ~ (truthy (includeLastCommitText cfg ctx) = true
              /\ lastCommitBody cfg ctx <> "")
           /\ description = "")
    /\ ((truthy (includeChangelog cfg ctx) = true /\ notes_text ctx <> "")
        /\ changelog = "*📝 Changelog:*" ++ nl ++ notes_text ctx ++ nl ++ nl
        \/ ~ (truthy (includeChangelog cfg ctx) = true
              /\ notes_text ctx <> "")
           /\ changelog = "").
Proof.
  set (d := (truthy (includeLastCommitText cfg ctx)
             && negb (String.eqb (lastCommitBody cfg ctx) ""))%bool).
  set (c := (truthy (includeChangelog cfg ctx)
             && negb (String.eqb (notes_text ctx) ""))%bool).
  exists (if d
          then "*📖 Description:*" ++ nl ++ lastCommitBody cfg ctx ++ nl ++ nl
          else ""),
    (if c then "*📝 Changelog:*" ++ nl ++ notes_text ctx ++ nl ++ nl else "").
  split; [| split].
  - apply formatMessage_closed_form.
  - destruct d eqn:Ed; unfold d in Ed.
    + left. split; [now apply andb_negb_eqb_iff | reflexivity].
    + right. split; [| reflexivity].
      intros H. apply andb_negb_eqb_iff in H. congruence.
  - destruct c eqn:Ec; unfold c in Ec.
    + left. split; [now apply andb_negb_eqb_iff | reflexivity].
    + right. split; [| reflexivity].
      intros H. apply andb_negb_eqb_iff in H. congruence.
Qed.

Lemma formatMessage_sections_witness :
  formatMessage Scenario.config Scenario.context
  = "New release: 1.2.0" ++ nl ++ nl
      ++ ("*📖 Description:*" ++ nl ++ "Details here" ++ nl ++ nl)
      ++ ("*📝 Changelog:*" ++ nl ++ "fix bug" ++ nl ++ nl).
Proof.
  destruct (formatMessage_sections Scenario.config Scenario.context)
    as (description & changelog & Heq & Hd & Hc).
  rewrite Heq.
  destruct Hd as [[_ ->] | [Hd _]].
  - destruct Hc as [[_ ->] | [Hc _]].
    + reflexivity.
    + exfalso. apply Hc. split; [reflexivity |].
      intros H. vm_compute in H. discriminate H.
  - exfalso. apply Hd. split; [reflexivity |].
    intros H. vm_compute in H. discriminate H.
Defined.

(** ** The steps of the [try] block *)

Lemma bind_normal {A B} (m : M A) (k : A -> M B) (st st' : State) (a : A) :
  m st = (Normal a, st') -> bind m k st = k a st'.
Proof.
  intros H. unfold bind. now rewrite H.
Qed.

Lemma bind_throw {A B} (m : M A) (k : A -> M B) (st st' : State)
  (e : JsError.t) :
  m st = (Throw e, st') -> bind m k st = (Throw e, st').
Proof.
  intros H. unfold bind. now rewrite H.
Qed.

Lemma try_block_posted
  (w : World) (env : Env.t) (cfg : PluginConfig.t) (ctx : Context.t)
  (assets : JsObject.t) (r : PostResponse.t) :
  resolveAssets w cfg ctx = Normal assets ->
  chat_postMessage w [] (initial_post_args env cfg ctx) = Normal r ->
  try_block w env cfg ctx initial_state
  = bind (upload_loop w env (JsObject.entries assets))
      (fun _ => update_step w env cfg ctx) (posted_state env cfg ctx r).
Proof.
  intros Hres Hpost.
  unfold try_block, lift, postMessage, await, set_initialMessage, log, emit,
    set_threadTs, initial_state.
  unfold bind at 1. rewrite Hres.
  unfold bind at 1. simpl_run. rewrite Hpost.
  reflexivity.
Qed.

(** One asset whose file is there: the two or three events of its turn. *)
Lemma upload_loop_step (w : World) (env : Env.t)
  (filePath label : string) (rest : list (string * string)) (st : State) :
  existsSync w (trace st) (path_resolve w filePath) = true ->
  let args := upload_args w env (path_resolve w filePath) label (threadTs st) in
  let uploading := Log LogInfo ("Uploading " ++ label ++ "...") in
  let outcome := files_uploadV2 w (trace st ++ [uploading]) args in
  upload_loop w env ((filePath, label) :: rest) st
  = match outcome with
    | Throw e => (Throw e, add_events st [uploading; UploadV2 args outcome])
    | Normal resp =>
        match uploaded_file resp with
        | Some uploadedFile =>
            upload_loop w env rest
              (add_link
                 (add_events st
                    [uploading; UploadV2 args outcome;
                     Log LogInfo ("Uploaded " ++ label ++ ": "
                                    ++ to_string (UploadedFile.id uploadedFile))])
                 (download_link label uploadedFile))
        | None =>
            upload_loop w env rest
              (add_events st
                 [uploading; UploadV2 args outcome;
                  Log LogError ("Failed to upload " ++ label ++ ".")])
        end
    end.
Proof.
  intros Hex args uploading outcome.
  cbn [upload_loop]. unfold bind at 1. unfold get_state at 1. rewrite Hex.
  unfold bind, log, emit, uploadV2, await, push_downloadLink, add_events,
    add_link; simpl_run.
  fold args. fold uploading. fold outcome.
  destruct outcome as [resp | e]; simpl_run.
  - destruct (uploaded_file resp) as [f |]; simpl_run;
      rewrite <- !app_assoc; reflexivity.
  - rewrite <- !app_assoc. reflexivity.
Qed.

Lemma upload_loop_missing (w : World) (env : Env.t)
  (filePath label : string) (rest : list (string * string)) (st : State) :
  existsSync w (trace st) (path_resolve w filePath) = false ->
  upload_loop w env ((filePath, label) :: rest) st
  = (Throw (JsError.Error
              ("Resolved file not found: " ++ path_resolve w filePath)), st).
Proof.
  intros Hex. cbn [upload_loop]. unfold bind, get_state. now rewrite Hex.
Qed.


(** The upload loop makes no update call and leaves the message handle and
    the thread identifier as they are. *)
Lemma upload_loop_keeps (w : World) (env : Env.t)
  (resolved : list (string * string)) (st st' : State) (c : completion unit) :
  upload_loop w env resolved st = (c, st') ->
  filter is_update (trace st') = filter is_update (trace st)
  /\ initialMessage st' = initialMessage st
  /\ threadTs st' = threadTs st.
Proof.
  revert st. induction resolved as [| [filePath label] rest IH]; intros st H.
  - inversion H. subst. repeat split.
  - destruct (existsSync w (trace st) (path_resolve w filePath)) eqn:Hex.
    + rewrite (upload_loop_step w env filePath label rest st Hex) in H.
      cbv zeta in H.
      destruct (files_uploadV2 w _ _) as [resp | e].
      * destruct (uploaded_file resp) as [f |]; apply IH in H;
          destruct H as (H1 & H2 & H3); simpl_run; cbn in H1, H2, H3;
          rewrite H1, H2, H3; rewrite filter_app; cbn;
          rewrite ?app_nil_r; repeat split.
      * inversion H. subst. cbn. rewrite filter_app. cbn.
        rewrite app_nil_r. repeat split.
    + rewrite (upload_loop_missing w env filePath label rest st Hex) in H.
      inversion H. subst. repeat split.
Qed.

(** The links grow by the lines of the ok-shaped uploads, in upload
    order, and by nothing else. *)
Lemma upload_loop_links (w : World) (env : Env.t)
  (resolved : list (string * string)) (st st' : State) (c : completion unit) :
  upload_loop w env resolved st = (c, st') ->
  exists evs,
    trace st' = (trace st ++ evs)%list
    /\ downloadLinks st' = (downloadLinks st ++ links_of_events evs)%list.
Proof.
  revert st. induction resolved as [| [filePath label] rest IH]; intros st H.
  - inversion H. subst. exists []. now rewrite !app_nil_r.
  - destruct (existsSync w (trace st) (path_resolve w filePath)) eqn:Hex.
    + rewrite (upload_loop_step w env filePath label rest st Hex) in H.
      cbv zeta in H.
      destruct (files_uploadV2 w _ _) as [resp | e] eqn:Er.
      * destruct (uploaded_file resp) as [f |] eqn:Ef;
          apply IH in H; destruct H as (evs & Ht & Hl);
          cbn [add_link add_events trace downloadLinks] in Ht, Hl;
          eexists; rewrite Ht, Hl, <- !app_assoc;
          (split; [reflexivity |]);
          unfold links_of_events; cbn [flat_map app upload_args UploadArgs.title];
          rewrite Ef; reflexivity.
      * inversion H. subst. cbn [add_events trace downloadLinks].
        eexists. split; [reflexivity |]. cbn. now rewrite app_nil_r.
    + rewrite (upload_loop_missing w env filePath label rest st Hex) in H.
      inversion H. subst. exists []. now rewrite !app_nil_r.
Qed.

Lemma catch_block_throws (w : World) (env : Env.t) (e : JsError.t)
  (st : State) :
  exists e' st', catch_block w env e st = (Throw e', st').
Proof.
  destruct st as [im ts dl tr].
  unfold catch_block, bind, log, emit, get_state, postMessage, update, await,
    ret, throw; simpl_run.
  destruct (truthy_string ts); simpl_run.
  - destruct (chat_postMessage w _ _); simpl_run; [| eauto].
    destruct im as [p |]; simpl_run; [| eauto].
    destruct (PostResponse.message p); simpl_run; [| eauto].
    destruct (chat_update w _ _); simpl_run; eauto.
  - destruct im as [p |]; simpl_run; [| eauto].
    destruct (PostResponse.message p); simpl_run; [| eauto].
    destruct (chat_update w _ _); simpl_run; eauto.
Qed.

(** A [try] block that throws makes the invocation throw. *)
Lemma run_fails_when_try_throws
  (w : World) (env : Env.t) (cfg : PluginConfig.t) (ctx : Context.t)
  (e : JsError.t) (st : State) :
  try_entered env cfg ctx = true ->
  try_block w env cfg ctx initial_state = (Throw e, st) ->
  exists e' tr, run w env cfg ctx = (Throw e', tr).
Proof.
  intros Hin Htry. unfold run.
  rewrite (run_entered w env cfg ctx Hin). unfold try_catch. rewrite Htry.
  destruct (catch_block_throws w env e st) as (e' & st' & ->).
  now exists e', (trace st').
Qed.

(** A [try] block that completes is the whole invocation. *)
Lemma run_when_try_returns
  (w : World) (env : Env.t) (cfg : PluginConfig.t) (ctx : Context.t)
  (st : State) :
  try_entered env cfg ctx = true ->
  try_block w env cfg ctx initial_state = (Normal tt, st) ->
  run w env cfg ctx = (Normal tt, trace st).
Proof.
  intros Hin Htry. unfold run.
  rewrite (run_entered w env cfg ctx Hin). unfold try_catch.
  now rewrite Htry.
Qed.

Lemma updated_text_eq (cfg : PluginConfig.t) (ctx : Context.t)
  (links : list string) :
  updated_text cfg ctx links
  = formatMessage cfg ctx ++ links_section links
      ++ (if String.eqb (lastLine cfg ctx) "" then ""
          else nl ++ nl ++ lastLine cfg ctx).
Proof.
  unfold updated_text, links_section.
  destruct (String.eqb (lastLine cfg ctx) ""); cbn [negb].
  - now rewrite append_empty_r.
  - now rewrite !append_assoc.
Qed.



(** ** The update step *)

(** C4, as the code has it: in a run that reaches the update step (the
    assets resolved, the post returned [r], the upload loop completed in
    state [st]), a non-empty list of download links makes the step issue
    one update call, the only one of the [try] block: on the channel of the
    initial post, with the [ts] that the post returned, and with the
    composed body, the Download Links section listing the accumulated
    lines in their order and the last line when it is not empty.  When
    that call returns, the run returns normally with this single update
    call.  When that call throws, the [try] block stops there with its
    error, the [catch] block follows and the run fails.  With an empty
    list the run makes no update call, logs a warning and returns
    normally. *)
Theorem update_step_once
  (w : World) (env : Env.t) (cfg : PluginConfig.t) (ctx : Context.t)
  (assets : JsObject.t) (r : PostResponse.t) (st : State) :
  try_entered env cfg ctx = true ->
  resolveAssets w cfg ctx = Normal assets ->
  chat_postMessage w [] (initial_post_args env cfg ctx) = Normal r ->
  upload_loop w env (JsObject.entries assets) (posted_state env cfg ctx r)
  = (Normal tt, st) ->
  let args := update_args env cfg ctx r (downloadLinks st) in
  let outcome := chat_update w (trace st) args in
  (downloadLinks st <> [] ->
   (exists after,
       trace (try_state w env cfg ctx)
       = (trace st ++ Update args outcome :: after)%list)
   /\ List.length (filter is_update (trace (try_state w env cfg ctx))) = 1
   /\ UpdateArgs.channel args
      = PostArgs.channel (initial_post_args env cfg ctx)
   /\ UpdateArgs.ts args = PostResponse.ts r
   /\ (outcome = Normal tt ->
       run w env cfg ctx
       = (Normal tt,
          (trace st
             ++ [Update args outcome;
                 Log LogInfo
                   "Release message updated with download links and last line."])%list)
       /\ List.length (filter is_update (snd (run w env cfg ctx))) = 1)
   /\ (forall e,
         outcome = Throw e ->
         try_block w env cfg ctx initial_state
         = (Throw e, add_events st [Update args (Throw e)])
         /\ exists e' tr, run w env cfg ctx = (Throw e', tr)))
  /\ (downloadLinks st = [] ->
      run w env cfg ctx
      = (Normal tt,
         (trace st
            ++ [Log LogWarn
                  "No files uploaded. The initial message was not updated."])%list)
      /\ filter is_update (snd (run w env cfg ctx)) = []).
Proof.
  intros Hin Hres Hpost Hloop args outcome.
  pose proof (upload_loop_keeps w env _ _ _ _ Hloop) as (Hupd & _ & Hts).
  cbn in Hupd, Hts.
  assert (Htry : try_block w env cfg ctx initial_state
                 = update_step w env cfg ctx st).
  { rewrite (try_block_posted w env cfg ctx assets r Hres Hpost).
    now rewrite (bind_normal _ _ _ _ _ Hloop). }
  assert (Hargs : {| UpdateArgs.channel := slackChannel env;
                     UpdateArgs.ts := threadTs st;
                     UpdateArgs.text := updated_text cfg ctx (downloadLinks st);
                     UpdateArgs.mrkdwn := true |} = args).
  { unfold args, update_args. now rewrite Hts, updated_text_eq. }
  unfold update_step, bind, get_state, update, await, log, emit in Htry.
  cbn beta iota in Htry. rewrite Hargs in Htry.
  subst outcome. split.
  - intros Hlinks.
    destruct (downloadLinks st) as [| l ls] eqn:El; [congruence |].
    cbn [List.length Nat.ltb Nat.leb] in Htry.
    split; [| split; [| split; [reflexivity | split; [reflexivity |]]]].
    + unfold try_state. rewrite Htry.
      destruct (chat_update w (trace st) args) as [[] | e3];
        cbn [snd trace].
      * eexists. rewrite <- app_assoc. reflexivity.
      * exists []. reflexivity.
    + unfold try_state. rewrite Htry.
      destruct (chat_update w (trace st) args) as [[] | e3];
        cbn [snd trace]; rewrite !filter_app, Hupd; reflexivity.
    + split.
      * intros Hout. rewrite Hout in Htry. simpl_run in Htry.
        rewrite (run_when_try_returns w env cfg ctx _ Hin Htry).
        cbn [snd trace]. rewrite !filter_app, Hupd.
        split; [rewrite Hout; now rewrite <- app_assoc | reflexivity].
      * intros e Hout. rewrite Hout in Htry. simpl_run in Htry.
        split; [exact Htry |].
        exact (run_fails_when_try_throws w env cfg ctx e _ Hin Htry).
  - intros Hlinks. rewrite Hlinks in Htry.
    cbn [List.length Nat.ltb Nat.leb] in Htry.
    rewrite (run_when_try_returns w env cfg ctx _ Hin Htry).
    split; [reflexivity |].
    cbn [snd trace]. now rewrite filter_app, Hupd.
Qed.

Lemma update_step_once_witness :
  run Scenario.world Scenario.env Scenario.config Scenario.context
  = (Normal tt,
     (trace Scenario.uploaded_state
        ++ [Update
              (update_args Scenario.env Scenario.config Scenario.context
                 Scenario.initial_response
                 ["• *Binary*: <https://files/F1|Download>"])
              (Normal tt);
            Log LogInfo
              "Release message updated with download links and last line."])%list)
  /\ List.length
       (filter is_update
          (snd (run Scenario.world Scenario.env Scenario.config
                  Scenario.context))) = 1.
Proof.
  refine (proj1 (proj2 (proj2 (proj2 (proj2
    (proj1 (update_step_once Scenario.world Scenario.env Scenario.config
              Scenario.context [("dist/app.bin", "Binary")]
              Scenario.initial_response Scenario.uploaded_state
              eq_refl eq_refl eq_refl eq_refl) _))))) eq_refl).
  discriminate.
Defined.

(** C4 as stated fails when the update call of the step throws.  Here
    the upload loop completes with one download link and the update call
    throws [update_failed]: the [catch] block then overwrites the initial
    message with the caution text, a second update call, and the run does
    not complete but fails with [update_failed]. *)
Lemma failed_update_is_followed_by_the_caution_update :
  upload_loop Scenario.world_update_throws Scenario.env
    [("dist/app.bin", "Binary")] Scenario.posted_at_start
  = (Normal tt, Scenario.uploaded_state)
  /\ downloadLinks Scenario.uploaded_state
     = ["• *Binary*: <https://files/F1|Download>"]
  /\ chat_update Scenario.world_update_throws
       (trace Scenario.uploaded_state)
       (update_args Scenario.env Scenario.config Scenario.context
          Scenario.initial_response (downloadLinks Scenario.uploaded_state))
     = Throw Scenario.update_failed
  /\ List.length
       (filter is_update
          (snd (run Scenario.world_update_throws Scenario.env Scenario.config
                  Scenario.context))) = 2
  /\ fst (run Scenario.world_update_throws Scenario.env Scenario.config
            Scenario.context) = Throw Scenario.update_failed.
Proof.
  repeat split; reflexivity.
Qed.

(** ** The upload loop *)





(** ** The asset resolver *)

Lemma get_set_own (o : JsObject.t) (k v k' : string) :
  JsObject.get (JsObject.set_own o k v) k'
  = if String.eqb k k' then Some v else JsObject.get o k'.
Proof.
  induction o as [| [k0 v0] o IH]; cbn.
  - destruct (String.eqb k k'); reflexivity.
  - destruct (String.eqb k0 k) eqn:E0; cbn.
    + apply String.eqb_eq in E0. subst k0.
      destruct (String.eqb k k'); reflexivity.
    + rewrite IH. destruct (String.eqb k0 k') eqn:E1; [| reflexivity].
      apply String.eqb_eq in E1. subst k0.
      rewrite String.eqb_sym in E0. now rewrite E0.
Qed.

(** Reading a key other than [__proto__] after an assignment. *)
Lemma get_set (o : JsObject.t) (k v k' : string) :
  k' <> "__proto__" ->
  JsObject.get (JsObject.set o k v) k'
  = if String.eqb k k' then Some v else JsObject.get o k'.
Proof.
  intros Hk'. unfold JsObject.set.
  destruct (String.eqb k "__proto__") eqn:E.
  - apply String.eqb_eq in E. subst k.
    destruct (String.eqb "__proto__" k') eqn:E'; [| reflexivity].
    apply String.eqb_eq in E'. congruence.
  - apply get_set_own.
Qed.

Lemma get_fold_set (files : list string) (label : string) (o : JsObject.t)
  (k : string) :
  k <> "__proto__" ->
  JsObject.get (fold_left (fun o file => JsObject.set o file label) files o) k
  = if existsb (String.eqb k) files then Some label else JsObject.get o k.
Proof.
  intros Hk. revert o. induction files as [| f files IH]; intros o; cbn.
  - reflexivity.
  - rewrite IH, get_set, (String.eqb_sym k f) by assumption.
    destruct (existsb (String.eqb k) files), (String.eqb f k); reflexivity.
Qed.

Lemma resolve_loop_spec (w : World) (ctx : Context.t)
  (declared : list (string * string)) (acc : JsObject.t)
  (miss : list string) :
  globs_return w ctx declared ->
  exists res,
    resolve_loop w ctx declared acc miss
    = Normal (res, (miss ++ missing_patterns w ctx declared)%list)
    /\ forall k,
        k <> "__proto__" ->
        JsObject.get res k
        = match last_label w ctx declared k with
          | Some l => Some l
          | None => JsObject.get acc k
          end.
Proof.
  revert acc miss.
  induction declared as [| [rawPath label] rest IH]; intros acc miss Hret.
  - exists acc. cbn. now rewrite app_nil_r.
  - destruct (Hret (rawPath, label) (or_introl eq_refl)) as [files Hfiles].
    unfold globbed, declared_pattern in Hfiles. cbn [fst] in Hfiles.
    assert (Hrest : globs_return w ctx rest)
      by (intros d Hd; apply Hret; now right).
    cbn [resolve_loop]. rewrite Hfiles.
    unfold missing_patterns. cbn [map filter].
    unfold matched_nothing at 1, declared_pattern at 1. cbn [fst].
    rewrite Hfiles.
    destruct files as [| f files]; cbn [List.length Nat.eqb].
    + destruct (IH acc (miss ++ [interpolateString ctx rawPath])%list Hrest)
        as (res & Hloop & Hget).
      exists res. split.
      * rewrite Hloop. unfold missing_patterns. now rewrite <- app_assoc.
      * intros k Hk. rewrite Hget by assumption. cbn [last_label].
        destruct (last_label w ctx rest k); [reflexivity |].
        unfold matches, declared_pattern. cbn [fst]. now rewrite Hfiles.
    + destruct (IH (fold_left (fun o file => JsObject.set o file label)
                      (f :: files) acc) miss Hrest) as (res & Hloop & Hget).
      exists res. split; [exact Hloop |].
      intros k Hk. rewrite Hget by assumption. cbn [last_label].
      destruct (last_label w ctx rest k); [reflexivity |].
      rewrite get_fold_set by assumption.
      unfold matches, declared_pattern. cbn [fst snd]. rewrite Hfiles.
      now destruct (existsb _ _).
Qed.

(** The first glob call that rejects ends the loop, whatever was matched
    or missed before. *)
Lemma resolve_loop_rejects (w : World) (ctx : Context.t)
  (before after : list (string * string)) (d : string * string)
  (e : JsError.t) :
  globs_return w ctx before ->
  fastGlob w (declared_pattern ctx d) = Throw e ->
  forall acc miss,
    resolve_loop w ctx (before ++ d :: after)%list acc miss = Throw e.
Proof.
  intros Hret Hthrow.
  induction before as [| [rawPath label] before IH]; intros acc miss.
  - destruct d as [rawPath label]. unfold declared_pattern in Hthrow.
    cbn [fst] in Hthrow. cbn [app resolve_loop]. now rewrite Hthrow.
  - destruct (Hret (rawPath, label) (or_introl eq_refl)) as [files Hfiles].
    unfold globbed, declared_pattern in Hfiles. cbn [fst] in Hfiles.
    assert (Hrest : globs_return w ctx before)
      by (intros d' Hd'; apply Hret; now right).
    cbn [app resolve_loop]. rewrite Hfiles.
    destruct (List.length files =? 0)%nat; now apply IH.
Qed.

Lemma existsb_eqb_In (k : string) (l : list string) :
  existsb (String.eqb k) l = true <-> In k l.
Proof.
  rewrite existsb_exists. split.
  - intros (x & Hx & E). apply String.eqb_eq in E. now subst.
  - intros H. exists k. split; [assumption | apply String.eqb_refl].
Qed.

Lemma last_label_none (w : World) (ctx : Context.t)
  (declared : list (string * string)) (file : string) :
  (forall d files, In d declared -> globbed w ctx d files ->
                   ~ In file files) ->
  last_label w ctx declared file = None.
Proof.
  induction declared as [| d rest IH]; intros H; cbn; [reflexivity |].
  rewrite IH by (intros d' files Hd'; apply H; now right).
  unfold matches.
  destruct (fastGlob w (declared_pattern ctx d)) as [files | e] eqn:E;
    [| reflexivity].
  destruct (existsb (String.eqb file) files) eqn:Ex; [| reflexivity].
  apply existsb_eqb_In in Ex. exfalso.
  apply (H d files); [now left | exact E | assumption].
Qed.

Lemma last_label_last (w : World) (ctx : Context.t)
  (before after : list (string * string)) (d : string * string)
  (files : list string) (file : string) :
  globbed w ctx d files ->
  In file files ->
  (forall d' files', In d' after -> globbed w ctx d' files' ->
                     ~ In file files') ->
  last_label w ctx (before ++ d :: after)%list file = Some (snd d).
Proof.
  intros Hglob Hin Hafter. induction before as [| b before IH]; cbn.
  - rewrite (last_label_none w ctx after file Hafter).
    apply existsb_eqb_In in Hin. unfold matches.
    unfold globbed in Hglob. now rewrite Hglob, Hin.
  - now rewrite IH.
Qed.

Lemma missing_patterns_nil (w : World) (ctx : Context.t)
  (declared : list (string * string)) :
  (forall d, In d declared -> ~ globbed w ctx d []) ->
  missing_patterns w ctx declared = [].
Proof.
  induction declared as [| d rest IH]; intros H; [reflexivity |].
  unfold missing_patterns. cbn [map filter]. unfold matched_nothing at 1.
  destruct (fastGlob w (declared_pattern ctx d)) as [[| f files] | e] eqn:E.
  - exfalso. apply (H d); [now left | exact E].
  - apply IH. intros d' Hd'. apply H. now right.
  - apply IH. intros d' Hd'. apply H. now right.
Qed.

Lemma missing_patterns_cons (w : World) (ctx : Context.t)
  (declared : list (string * string)) (d : string * string) :
  In d declared -> globbed w ctx d [] ->
  missing_patterns w ctx declared <> [].
Proof.
  intros Hd Hg Hnil.
  assert (Hin : In (declared_pattern ctx d) (missing_patterns w ctx declared)).
  { unfold missing_patterns. apply filter_In. split.
    - now apply in_map.
    - unfold matched_nothing. unfold globbed in Hg. now rewrite Hg. }
  rewrite Hnil in Hin. exact Hin.
Qed.

Lemma in_missing_patterns (w : World) (ctx : Context.t)
  (declared : list (string * string)) (p : string) :
  In p (missing_patterns w ctx declared)
  <-> exists d, In d declared /\ p = declared_pattern ctx d
                /\ fastGlob w p = Normal [].
Proof.
  unfold missing_patterns.
  rewrite filter_In, in_map_iff. unfold matched_nothing. split.
  - intros ((d0 & Hp & Hd0) & Hnone). exists d0.
    repeat split; [assumption | now symmetry |].
    destruct (fastGlob w p) as [[| f files] | e];
      [reflexivity | discriminate | discriminate].
  - intros (d0 & Hd0 & Hp & Hnone). split.
    + now exists d0.
    + now rewrite Hnone.
Qed.

Lemma resolveAssets_spec (w : World) (cfg : PluginConfig.t) (ctx : Context.t) :
  let declared := JsObject.entries (rawAssets cfg) in
  let missing := missing_patterns w ctx declared in
  globs_return w ctx declared ->
  exists res,
    resolveAssets w cfg ctx
    = match missing with
      | [] => Normal res
      | _ => Throw (JsError.Error (missing_assets_message missing))
      end
    /\ forall k,
        k <> "__proto__" ->
        JsObject.get res k = last_label w ctx declared k.
Proof.
  intros declared missing Hret. unfold resolveAssets. fold declared.
  destruct (resolve_loop_spec w ctx declared [] [] Hret)
    as (res & Hloop & Hget).
  exists res. rewrite Hloop. cbn [app]. fold missing. split.
  - now destruct missing.
  - intros k Hk. rewrite (Hget k Hk).
    now destruct (last_label w ctx declared k).
Qed.

Lemma resolveAssets_rejects (w : World) (cfg : PluginConfig.t)
  (ctx : Context.t) (before after : list (string * string))
  (d : string * string) (e : JsError.t) :
  JsObject.entries (rawAssets cfg) = (before ++ d :: after)%list ->
  globs_return w ctx before ->
  fastGlob w (declared_pattern ctx d) = Throw e ->
  resolveAssets w cfg ctx = Throw e.
Proof.
  intros Hdecl Hret Hthrow. unfold resolveAssets.
  now rewrite Hdecl, (resolve_loop_rejects w ctx before after d e Hret Hthrow).
Qed.

(** What [resolveAssets] returned is what its loop left, nothing missing. *)
Lemma resolveAssets_normal (w : World) (cfg : PluginConfig.t)
  (ctx : Context.t) (resolved : JsObject.t) :
  resolveAssets w cfg ctx = Normal resolved ->
  resolve_loop w ctx (JsObject.entries (rawAssets cfg)) [] []
  = Normal (resolved, []).
Proof.
  unfold resolveAssets.
  destruct (resolve_loop w ctx (JsObject.entries (rawAssets cfg)) [] [])
    as [[res miss] | e]; [| discriminate].
  destruct miss as [| m miss]; cbn; [| discriminate].
  now intros [= ->].
Qed.

Lemma run_when_resolution_fails
  (w : World) (env : Env.t) (cfg : PluginConfig.t) (ctx : Context.t)
  (e : JsError.t) :
  try_entered env cfg ctx = true ->
  resolveAssets w cfg ctx = Throw e ->
  run w env cfg ctx
  = (Throw e,
     [Log LogError ("Error during file upload or message update: "
                      ++ JsError.message e)]).
Proof.
  intros Hin Hres. unfold run.
  rewrite (run_entered w env cfg ctx Hin). unfold try_catch.
  assert (Htry : try_block w env cfg ctx initial_state
                 = (Throw e, initial_state)).
  { unfold try_block, lift. apply bind_throw. now rewrite Hres. }
  rewrite Htry. reflexivity.
Qed.

(** C2, as the code has it.  Let the declarations be taken in the order
    of [Object.entries].  When every glob call returns and every declared
    pattern, interpolated, matches at least one file, [resolveAssets]
    returns a mapping in which every matched file carries the label of the
    last declaration whose pattern matches it (a file named [__proto__]
    apart, which an object literal cannot take as a key).  When every glob
    call returns and some pattern matches nothing, [resolveAssets] throws
    one error whose text is the heading followed by the interpolated
    patterns that matched nothing, one per line and in the order of
    [Object.entries].  When a glob call rejects, [resolveAssets] fails at
    once with the error of that call, whatever the patterns before it
    matched, and no aggregate error is raised.  In both failures the run
    does nothing but log the error and rethrow it: no transport call is
    made. *)
Theorem resolveAssets_all_or_nothing
  (w : World) (env : Env.t) (cfg : PluginConfig.t) (ctx : Context.t) :
  let declared := JsObject.entries (rawAssets cfg) in
  let missing := missing_patterns w ctx declared in
  let failed e :=
    try_entered env cfg ctx = true ->
    run w env cfg ctx
    = (Throw e,
       [Log LogError ("Error during file upload or message update: "
                        ++ JsError.message e)])
    /\ existsb is_transport (snd (run w env cfg ctx)) = false in
  (globs_return w ctx declared ->
   ((forall d, In d declared -> ~ globbed w ctx d []) ->
    exists resolved,
      resolveAssets w cfg ctx = Normal resolved
      /\ forall before d after files file,
          declared = (before ++ d :: after)%list ->
          globbed w ctx d files ->
          In file files ->
          file <> "__proto__" ->
          (forall d' files', In d' after -> globbed w ctx d' files' ->
                             ~ In file files') ->
          JsObject.get resolved file = Some (snd d))
   /\ ((exists d, In d declared /\ globbed w ctx d []) ->
       let e :=
         JsError.Error
           ("The following required assets were not found:" ++ nl
              ++ join nl missing) in
       (forall p, In p missing
                  <-> exists d, In d declared /\ p = declared_pattern ctx d
                                /\ fastGlob w p = Normal [])
       /\ resolveAssets w cfg ctx = Throw e
       /\ failed e))
  /\ (forall before d after e,
         declared = (before ++ d :: after)%list ->
         globs_return w ctx before ->
         fastGlob w (declared_pattern ctx d) = Throw e ->
         resolveAssets w cfg ctx = Throw e /\ failed e).
Proof.
  intros declared missing failed.
  assert (Hfailed : forall e, resolveAssets w cfg ctx = Throw e -> failed e).
  { intros e Hres Hin.
    rewrite (run_when_resolution_fails w env cfg ctx e Hin Hres).
    split; reflexivity. }
  split.
  - intros Hret.
    destruct (resolveAssets_spec w cfg ctx Hret) as (res & Hspec & Hget).
    fold declared in Hspec, Hget. fold missing in Hspec.
    split.
    + intros Hall.
      assert (Hnil : missing = []) by now apply missing_patterns_nil.
      rewrite Hnil in Hspec.
      exists res. split; [exact Hspec |].
      intros before d after files file Hdecl Hglob Hfile Hproto Hafter.
      rewrite Hget, Hdecl by assumption.
      exact (last_label_last w ctx before after d files file
               Hglob Hfile Hafter).
    + intros (d & Hd & Hg) e.
      assert (Hne : missing <> [])
        by exact (missing_patterns_cons w ctx declared d Hd Hg).
      assert (Hres : resolveAssets w cfg ctx = Throw e).
      { rewrite Hspec. destruct missing; [congruence | reflexivity]. }
      split; [| split; [exact Hres | now apply Hfailed]].
      intros p. apply in_missing_patterns.
  - intros before d after e Hdecl Hret Hthrow.
    assert (Hres : resolveAssets w cfg ctx = Throw e)
      by exact (resolveAssets_rejects w cfg ctx before after d e
                  Hdecl Hret Hthrow).
    split; [exact Hres | now apply Hfailed].
Qed.

Lemma resolveAssets_all_or_nothing_witness :
  (exists resolved,
      resolveAssets Scenario.world Scenario.config Scenario.context
      = Normal resolved
      /\ JsObject.get resolved "dist/app.bin" = Some "Binary")
  /\ run Scenario.world Scenario.env Scenario.config_missing Scenario.context
     = (Throw (JsError.Error
                 ("The following required assets were not found:" ++ nl
                    ++ "dist/app-1.2.0.bin" ++ nl ++ "docs/manual.pdf")),
        [Log LogError
           ("Error during file upload or message update: "
              ++ "The following required assets were not found:" ++ nl
              ++ "dist/app-1.2.0.bin" ++ nl ++ "docs/manual.pdf")])
  /\ run Scenario.world Scenario.env Scenario.config_empty_pattern
       Scenario.context_no_notes
     = (Throw Scenario.empty_pattern,
        [Log LogError
           ("Error during file upload or message update: "
              ++ "Patterns must be a string (non empty) or an array of strings")]).
Proof.
  split; [| split].
  - assert (Hret : globs_return Scenario.world Scenario.context
                     (JsObject.entries (rawAssets Scenario.config))).
    { intros d [<- | []]. now exists ["dist/app.bin"]. }
    destruct (proj1 (proj1 (resolveAssets_all_or_nothing Scenario.world
                              Scenario.env Scenario.config Scenario.context)
                       Hret))
      as (resolved & Hres & Hlabel).
    + intros d [<- | []] H. vm_compute in H. discriminate H.
    + exists resolved. split; [exact Hres |].
      apply (Hlabel [] ("dist/app.bin", "Binary") [] ["dist/app.bin"]
               "dist/app.bin").
      * reflexivity.
      * reflexivity.
      * now left.
      * discriminate.
      * intros d' files' [].
  - refine (proj1 (proj2 (proj2
      (proj2 (proj1 (resolveAssets_all_or_nothing Scenario.world Scenario.env
                       Scenario.config_missing Scenario.context) _) _))
      eq_refl)).
    + intros d [<- | [<- | [<- | []]]]; eexists; reflexivity.
    + exists ("docs/manual.pdf", "Manual"). split; [| reflexivity].
      right. right. now left.
  - refine (proj1 (proj2
      (proj2 (resolveAssets_all_or_nothing Scenario.world Scenario.env
                Scenario.config_empty_pattern Scenario.context_no_notes)
         [("docs/manual.pdf", "Manual")] ("${nextRelease.notes}", "Notes")
         [("dist/app.bin", "Binary")] Scenario.empty_pattern
         eq_refl _ eq_refl) eq_refl)).
    intros d [<- | []]. now exists [].
Defined.

(** C2 as stated fails when two declarations match the same file: the
    pattern [dist/app.bin], declared with the label Binary, matches the
    file [dist/app.bin], every pattern matches a file, and yet the file is
    in the result under Application, the label of the later declaration. *)
Lemma overlapping_declarations_last_label_wins :
  let declared := JsObject.entries (rawAssets Scenario.config_overlap) in
  In ("dist/app.bin", "Binary") declared
  /\ globbed Scenario.world Scenario.context ("dist/app.bin", "Binary")
       ["dist/app.bin"]
  /\ (forall d, In d declared ->
                exists files,
                  globbed Scenario.world Scenario.context d files
                  /\ files <> [])
  /\ resolveAssets Scenario.world Scenario.config_overlap Scenario.context
     = Normal [("dist/app.bin", "Application")]
  /\ JsObject.get [("dist/app.bin", "Application")] "dist/app.bin"
     <> Some "Binary".
Proof.
  cbv zeta. split; [now left |]. split; [reflexivity |].
  split; [| split; [reflexivity | discriminate]].
  intros d [<- | [<- | []]]; exists ["dist/app.bin"];
    (split; [reflexivity | discriminate]).
Qed.

(** It fails as well when a glob call rejects.  The pattern
    [docs/manual.pdf] matches nothing, the next pattern is empty once
    interpolated, and [fast-glob] rejects it: [resolveAssets] throws the
    error of the glob call, which lists no pattern, and not the aggregate
    error. *)
Lemma glob_rejection_replaces_the_aggregate_error :
  let declared := JsObject.entries (rawAssets Scenario.config_empty_pattern) in
  In ("docs/manual.pdf", "Manual") declared
  /\ globbed Scenario.world Scenario.context_no_notes
       ("docs/manual.pdf", "Manual") []
  /\ resolveAssets Scenario.world Scenario.config_empty_pattern
       Scenario.context_no_notes
     = Throw Scenario.empty_pattern
  /\ forall missing,
      JsError.message Scenario.empty_pattern
      <> missing_assets_message missing.
Proof.
  cbv zeta. split; [now left |]. split; [reflexivity |].
  split; [reflexivity |].
  intros missing. unfold missing_assets_message. cbn. discriminate.
Qed.

(** The patterns that matched nothing are listed in the order of
    [Object.entries], which is not the order of the declaration when a key
    is an array index: declared as [b], [10], [9], they are listed as [9],
    [10], [b]. *)
Lemma missing_patterns_follow_entries_order :
  rawAssets Scenario.config_index_keys = [("b", "B"); ("10", "Ten"); ("9", "Nine")]
  /\ resolveAssets Scenario.world Scenario.config_index_keys Scenario.context
     = Throw (JsError.Error
                ("The following required assets were not found:" ++ nl
                   ++ "9" ++ nl ++ "10" ++ nl ++ "b")).
Proof.
  split; reflexivity.
Qed.

(** ** White space: what [trim] takes for blank *)

Lemma prefix_free_spec (ws : list string) (w w' : string) :
  prefix_free ws = true -> In w ws -> In w' ws ->
  String.prefix w w' = true -> w = w'.
Proof.
  unfold prefix_free. rewrite forallb_forall. intros H Hw Hw' Hp.
  specialize (H w Hw). rewrite forallb_forall in H.
  specialize (H w' Hw'). rewrite Hp in H. cbn in H.
  now apply String.eqb_eq.
Qed.

Lemma no_empty_entry_spec (ws : list string) (w : string) :
  no_empty_entry ws = true -> In w ws -> w <> "".
Proof.
  unfold no_empty_entry. rewrite forallb_forall. intros H Hw.
  specialize (H w Hw). now apply negb_true_iff, String.eqb_neq in H.
Qed.

Lemma strip_one_some (ws : list string) (s r : string) :
  strip_one ws s = Some r -> exists w, In w ws /\ s = w ++ r.
Proof.
  induction ws as [| w ws IH]; cbn; [discriminate |].
  destruct (String.prefix w s) eqn:Hp.
  - intros [= <-]. exists w. split; [now left | now apply prefix_split].
  - intros H. destruct (IH H) as (w' & Hw' & Hs). exists w'.
    split; [now right | assumption].
Qed.

Lemma strip_one_none (ws : list string) (s w : string) :
  strip_one ws s = None -> In w ws -> String.prefix w s = false.
Proof.
  induction ws as [| w0 ws IH]; cbn; [intros _ [] |].
  destruct (String.prefix w0 s) eqn:Hp; [discriminate |].
  intros H [<- | Hw]; [assumption | now apply IH].
Qed.

Lemma strip_all_empty (ws : list string) (fuel : nat) (s : string) :
  strip_all ws fuel s = "" -> made_of ws s.
Proof.
  revert s. induction fuel as [| fuel IH]; intros s; cbn.
  - intros ->. constructor.
  - destruct (strip_one ws s) as [r |] eqn:E.
    + intros H. destruct (strip_one_some ws s r E) as (w & Hw & ->).
      constructor; [assumption | now apply IH].
    + intros ->. constructor.
Qed.

Lemma made_of_strip_all (ws : list string) :
  prefix_free ws = true -> no_empty_entry ws = true ->
  forall (fuel : nat) (s : string),
    made_of ws s -> String.length s <= fuel -> strip_all ws fuel s = "".
Proof.
  intros Hpf Hne. induction fuel as [| fuel IH]; intros s Hm Hlen.
  - destruct s; [reflexivity | cbn in Hlen; lia].
  - cbn [strip_all]. destruct Hm as [| w s' Hw Hs'].
    + destruct (strip_one ws "") as [r |] eqn:E; [| reflexivity].
      destruct (strip_one_some ws "" r E) as (w & Hw & Hs).
      pose proof (no_empty_entry_spec ws w Hne Hw).
      destruct w; [congruence | discriminate].
    + destruct (strip_one ws (w ++ s')) as [r |] eqn:E.
      * destruct (strip_one_some ws _ r E) as (w' & Hw' & Hs).
        assert (w = w') as <-.
        { destruct (prefix_comparable w w' s' r Hs) as [Hp | Hp].
          - now apply (prefix_free_spec ws).
          - symmetry. now apply (prefix_free_spec ws). }
        apply app_inv_head in Hs. subst r. apply IH; [assumption |].
        rewrite length_app in Hlen.
        pose proof (no_empty_entry_spec ws w Hne Hw).
        destruct w; [congruence | cbn [String.length] in Hlen; lia].
      * pose proof (strip_one_none ws _ w E Hw) as Hp.
        now rewrite prefix_app in Hp.
Qed.

(** With fuel for every character, stripping stops where no white space
    starts the rest. *)
Lemma strip_all_done (ws : list string) :
  no_empty_entry ws = true ->
  forall (fuel : nat) (s : string),
    String.length s <= fuel -> strip_one ws (strip_all ws fuel s) = None.
Proof.
  intros Hne. induction fuel as [| fuel IH]; intros s Hlen.
  - destruct s; [| cbn in Hlen; lia]. cbn [strip_all].
    destruct (strip_one ws "") as [r |] eqn:E; [| reflexivity].
    destruct (strip_one_some ws "" r E) as (w & Hw & Hs).
    pose proof (no_empty_entry_spec ws w Hne Hw).
    destruct w; [congruence | discriminate].
  - cbn [strip_all]. destruct (strip_one ws s) as [r |] eqn:E; [| exact E].
    destruct (strip_one_some ws s r E) as (w & Hw & ->).
    apply IH. rewrite length_app in Hlen.
    pose proof (no_empty_entry_spec ws w Hne Hw).
    destruct w; [congruence | cbn [String.length] in Hlen; lia].
Qed.

Lemma made_of_stuck (ws : list string) (t : string) :
  made_of ws t -> strip_one ws t = None -> t = "".
Proof.
  intros [| w s Hw Hs] Hnone; [reflexivity |].
  pose proof (strip_one_none ws _ w Hnone Hw) as Hp.
  now rewrite prefix_app in Hp.
Qed.

Lemma rev_string_app (acc s : string) :
  rev_string acc s = rev_string "" s ++ acc.
Proof.
  revert acc. induction s as [| c s IH]; intros acc; cbn; [reflexivity |].
  rewrite IH, (IH (String c "")), append_assoc. reflexivity.
Qed.

Lemma rev_app (a b : string) : rev (a ++ b) = rev b ++ rev a.
Proof.
  unfold rev. induction a as [| c a IH]; cbn.
  - now rewrite append_empty_r.
  - rewrite rev_string_app, IH, (rev_string_app (String c "") a).
    now rewrite append_assoc.
Qed.

Lemma rev_involutive (s : string) : rev (rev s) = s.
Proof.
  induction s as [| c s IH]; [reflexivity |].
  change (String c s) with (String c "" ++ s) at 1.
  rewrite rev_app, rev_app, IH. reflexivity.
Qed.

Lemma made_of_snoc (ws : list string) (s w : string) :
  made_of ws s -> In w ws -> made_of ws (s ++ w).
Proof.
  intros Hs Hw. induction Hs as [| w' s' Hw' Hs' IH].
  - cbn. rewrite <- (append_empty_r w). constructor; [assumption | constructor].
  - rewrite append_assoc. now constructor.
Qed.

Lemma made_of_rev (ws : list string) (s : string) :
  made_of (map rev ws) s -> made_of ws (rev s).
Proof.
  intros H. induction H as [| w' s' Hw' Hs' IH]; [constructor |].
  apply in_map_iff in Hw' as (w & <- & Hw).
  rewrite rev_app, rev_involutive. now apply made_of_snoc.
Qed.

Lemma trimStart_empty_iff_blank (s : string) :
  trimStart s = "" <-> blank s.
Proof.
  unfold trimStart, blank. split.
  - apply strip_all_empty.
  - intros H.
    apply made_of_strip_all; [reflexivity | reflexivity | assumption | lia].
Qed.

(** A line is empty once trimmed exactly when it is whitespace-only. *)
Lemma trim_empty_iff_blank (s : string) : trim s = "" <-> blank s.
Proof.
  split.
  - intros H. apply trimStart_empty_iff_blank.
    unfold trim, trimEnd in H.
    set (t := trimStart s) in *.
    assert (Hrev : strip_all (map rev white_space) (String.length t) (rev t)
                   = "").
    { rewrite <- (rev_involutive (strip_all _ _ _)), H. reflexivity. }
    apply strip_all_empty, made_of_rev in Hrev.
    rewrite rev_involutive in Hrev.
    apply (made_of_stuck white_space); [assumption |].
    unfold t, trimStart. apply strip_all_done; [reflexivity | lia].
  - intros H. apply trimStart_empty_iff_blank in H.
    unfold trim. rewrite H. reflexivity.
Qed.

Lemma is_blank_spec (line : string) : is_blank line = true <-> blank line.
Proof.
  unfold is_blank. rewrite String.eqb_eq. apply trim_empty_iff_blank.
Qed.

(** ** The last-commit excerpt *)

(** Lower-casing and then testing the start is the test that ignores case. *)
Lemma startsWith_toLowerCase (marker s : string) :
  startsWith marker (toLowerCase s) = starts_with_ci marker s.
Proof.
  unfold startsWith. revert s.
  induction marker as [| m marker IH]; intros [| c s]; try reflexivity.
  cbn [toLowerCase starts_with_ci]. now rewrite prefix_cons, IH.
Qed.

Lemma keep_line_spec (line : string) :
  keep_line line = (negb (is_blank line) && negb (is_trailer line))%bool.
Proof.
  unfold keep_line, is_blank, is_trailer.
  rewrite !startsWith_toLowerCase, negb_orb. now rewrite andb_assoc.
Qed.

Lemma filter_filter {A} (p q : A -> bool) (l : list A) :
  filter q (filter p l) = filter (fun x => (p x && q x)%bool) l.
Proof.
  induction l as [| x l IH]; cbn; [reflexivity |].
  destruct (p x); cbn; [| exact IH].
  destruct (q x); now rewrite IH.
Qed.

(** C7: with at least one commit and the last-commit flag set, the excerpt
    is what the contract describes, computed from the message of the first
    commit: split into lines, drop the first line, drop the blank lines,
    drop the lines that, trimmed and whatever their casing, start with
    [signed-off-by:] or [co-authored-by:], join with newlines and trim.
    When that excerpt is empty the composed message has no Description
    section: the Changelog section, or nothing, follows the template. *)
Theorem lastCommitBody_is_excerpt
  (cfg : PluginConfig.t) (ctx : Context.t) (c : Commit.t)
  (older : list Commit.t) :
  commits ctx = c :: older ->
  truthy (includeLastCommitText cfg ctx) = true ->
  lastCommitBody cfg ctx = excerpt (Commit.message c)
  /\ (excerpt (Commit.message c) = "" ->
      formatMessage cfg ctx
      = interpolateString ctx (rawMessageTemplate cfg ctx) ++ nl ++ nl
          ++ (if (truthy (includeChangelog cfg ctx)
                  && negb (String.eqb (notes_text ctx) ""))%bool
              then "*📝 Changelog:*" ++ nl ++ notes_text ctx ++ nl ++ nl
              else "")).
Proof.
  intros Hc Hflag.
  assert (E : lastCommitBody cfg ctx = excerpt (Commit.message c)).
  { unfold lastCommitBody, excerpt. rewrite Hc, Hflag. cbn [andb].
    cbn [List.length Nat.ltb Nat.leb].
    rewrite filter_filter. f_equal. f_equal.
    apply filter_ext. intros line. apply keep_line_spec. }
  split; [exact E |].
  intros Hempty. rewrite formatMessage_closed_form, E, Hempty.
  rewrite andb_false_r. reflexivity.
Qed.

Lemma lastCommitBody_is_excerpt_witness :
  lastCommitBody Scenario.config Scenario.context = "Details here"
  /\ excerpt
       ("feat: x" ++ nl ++ "  " ++ nl ++ " SIGNED-OFF-BY: A  " ++ nl
          ++ "Body line " ++ nl ++ "co-Authored-by: B" ++ nl)
     = "Body line".
Proof.
  split; [| reflexivity].
  rewrite (proj1 (lastCommitBody_is_excerpt Scenario.config Scenario.context
                    {| Commit.message := Scenario.commit_message |} []
                    eq_refl eq_refl)).
  reflexivity.
Defined.

(** ** The template interpolator *)

Lemma occursb_spec (pat s : string) :
  occursb pat s = true <-> occurs pat s.
Proof.
  split.
  - induction s as [| c s IH]; cbn [occursb]; intros H.
    + rewrite orb_false_r in H. exists "", (drop (String.length pat) "").
      cbn [append]. now apply prefix_split.
    + apply orb_true_iff in H as [H | H].
      * exists "", (drop (String.length pat) (String c s)).
        cbn [append]. now apply prefix_split.
      * destruct (IH H) as (a & b & ->). now exists (String c a), b.
  - intros (a & b & ->). induction a as [| c a IH].
    + cbn [append]. destruct (pat ++ b) eqn:E; cbn [occursb];
        rewrite <- E, prefix_app; reflexivity.
    + cbn [append occursb]. rewrite IH. apply orb_true_r.
Qed.

Lemma not_occurs_iff (pat s : string) :
  occursb pat s = false <-> ~ occurs pat s.
Proof.
  rewrite <- occursb_spec. now destruct (occursb pat s).
Qed.

Lemma getSubstitution_no_dollar (matched before after repl : string) :
  no_dollar repl = true -> getSubstitution matched before after repl = repl.
Proof.
  induction repl as [| c r IH]; cbn; [reflexivity |].
  intros H. apply andb_true_iff in H as [Hc Hr].
  apply negb_true_iff in Hc. rewrite Hc. now rewrite IH.
Qed.

(** The characters of a match that remain are passed over. *)
Lemma replace_scan_skip (pat repl x before s : string) :
  replace_scan pat repl (String.length x) before (x ++ s)
  = replace_scan pat repl 0 (before ++ x) s.
Proof.
  revert before. induction x as [| c x IH]; intros before.
  - cbn [String.length append]. now rewrite append_empty_r.
  - cbn [String.length append replace_scan]. rewrite IH.
    now rewrite append_assoc.
Qed.

Lemma replace_scan_match (pat repl before s : string) :
  pat <> "" ->
  replace_scan pat repl 0 before (pat ++ s)
  = getSubstitution pat before s repl
      ++ replace_scan pat repl 0 (before ++ pat) s.
Proof.
  intros Hne. destruct pat as [| c pat]; [congruence |].
  cbn [append replace_scan].
  change (String c (pat ++ s)) with (String c pat ++ s).
  rewrite prefix_app, drop_app.
  replace (String.length (String c pat) - 1) with (String.length pat)
    by (cbn [String.length]; lia).
  rewrite replace_scan_skip. now rewrite append_assoc.
Qed.

Lemma replace_scan_pass (pat repl before s : string) (c : ascii) :
  String.prefix pat (String c s) = false ->
  replace_scan pat repl 0 before (String c s)
  = String c (replace_scan pat repl 0 (before ++ String c "") s).
Proof.
  intros H. cbn [replace_scan]. now rewrite H.
Qed.

Lemma join_cons_char (sep x : string) (c : ascii) (l : list string) :
  join sep (String c x :: l) = String c (join sep (x :: l)).
Proof.
  now destruct l.
Qed.

Lemma join_head (sep x : string) (l : list string) :
  exists tail, join sep (x :: l) = x ++ tail.
Proof.
  destruct l as [| y l].
  - exists "". cbn. now rewrite append_empty_r.
  - now exists (sep ++ join sep (y :: l)).
Qed.

Lemma not_occurs_empty (pat : string) : pat <> "" -> ~ occurs pat "".
Proof.
  intros Hne (a & b & H). destruct a; [| discriminate].
  destruct pat; [congruence | discriminate].
Qed.

Lemma length_drop_lt (p s : string) :
  p <> "" -> String.prefix p s = true ->
  String.length (drop (String.length p) s) < String.length s.
Proof.
  intros Hne H. rewrite (prefix_split p s H) at 2.
  rewrite length_app. destruct p; [congruence | cbn [String.length]; lia].
Qed.

(** A global replacement with a value free of dollar signs cuts the text at
    the occurrences of the pattern and joins the segments with the value. *)
Lemma replace_scan_segments (pat v : string) :
  pat <> "" -> no_dollar v = true ->
  forall (n : nat) (s before : string),
    String.length s <= n ->
    exists seg segs,
      s = join pat (seg :: segs)
      /\ Forall (fun x => ~ occurs pat x) (seg :: segs)
      /\ replace_scan pat v 0 before s = join v (seg :: segs).
Proof.
  intros Hne Hv. induction n as [| n IH]; intros s before Hlen.
  - destruct s; [| cbn in Hlen; lia].
    exists "", []. repeat split.
    constructor; [now apply not_occurs_empty | constructor].
  - destruct s as [| c s].
    + exists "", []. repeat split.
      constructor; [now apply not_occurs_empty | constructor].
    + destruct (String.prefix pat (String c s)) eqn:Hp.
      * pose proof (prefix_split _ _ Hp) as Hs.
        pose proof (length_drop_lt _ _ Hne Hp) as Hlt.
        set (rest := drop (String.length pat) (String c s)) in *.
        destruct (IH rest (before ++ pat)) as (seg & segs & Hr & Hall & Hrep).
        { cbn [String.length] in Hlen, Hlt. lia. }
        exists "", (seg :: segs). split; [| split].
        -- change (join pat ("" :: seg :: segs))
             with (pat ++ join pat (seg :: segs)).
           now rewrite <- Hr.
        -- constructor; [now apply not_occurs_empty | exact Hall].
        -- rewrite Hs, replace_scan_match by assumption.
           rewrite getSubstitution_no_dollar by assumption.
           rewrite Hrep.
           change (join v ("" :: seg :: segs))
             with (v ++ join v (seg :: segs)).
           reflexivity.
      * destruct (IH s (before ++ String c "")) as (seg & segs & Hr & Hall & Hrep).
        { cbn in Hlen. lia. }
        exists (String c seg), segs. split; [| split].
        -- now rewrite join_cons_char, <- Hr.
        -- apply Forall_cons_iff in Hall as [Hseg Hsegs].
           constructor; [| exact Hsegs].
           intros (a & b & Hocc). destruct a as [| d a].
           ++ cbn [append] in Hocc.
              destruct (join_head pat seg segs) as (tail & Htail).
              assert (Ht : String c s = pat ++ (b ++ tail)).
              { rewrite Hr, Htail. change (String c (seg ++ tail))
                  with (String c seg ++ tail).
                now rewrite Hocc, append_assoc. }
              rewrite Ht, prefix_app in Hp. discriminate.
           ++ injection Hocc as _ Hocc. apply Hseg. now exists a, b.
        -- rewrite replace_scan_pass by assumption.
           now rewrite Hrep, join_cons_char.
Qed.

Lemma replace_g_segments (pat v s : string) :
  pat <> "" -> no_dollar v = true ->
  exists segs,
    s = join pat segs
    /\ Forall (fun x => ~ occurs pat x) segs
    /\ replace_g pat v s = join v segs.
Proof.
  intros Hne Hv.
  destruct (replace_scan_segments pat v Hne Hv (String.length s) s ""
              (le_n _)) as (seg & segs & H).
  now exists (seg :: segs).
Qed.

(** Text without an occurrence of the pattern is left as it is, whatever
    the replacement. *)
Lemma replace_scan_no_occurrence (pat repl s before : string) :
  ~ occurs pat s -> replace_scan pat repl 0 before s = s.
Proof.
  revert before. induction s as [| c s IH]; intros before Hno.
  - reflexivity.
  - rewrite replace_scan_pass.
    + rewrite IH; [reflexivity |].
      intros (a & b & ->). apply Hno. now exists (String c a), b.
    + destruct (String.prefix pat (String c s)) eqn:Hp; [| reflexivity].
      exfalso. apply Hno. exists "", (drop (String.length pat) (String c s)).
      cbn [append]. now apply prefix_split.
Qed.

Lemma no_dollar_app (a b : string) :
  no_dollar (a ++ b) = (no_dollar a && no_dollar b)%bool.
Proof.
  induction a as [| c a IH]; cbn; [reflexivity |].
  now rewrite IH, andb_assoc.
Qed.

(** A text without dollar signs holds no occurrence of a pattern that
    starts with one. *)
Lemma no_dollar_no_occurrence (pat s : string) :
  no_dollar s = true -> ~ occurs (String "$" pat) s.
Proof.
  intros H (a & b & ->). rewrite no_dollar_app in H.
  apply andb_true_iff in H as [_ H]. cbn in H. discriminate.
Qed.

Lemma replace_scan_text (pat repl a before s : string) :
  no_dollar a = true ->
  replace_scan (String "$" pat) repl 0 before (a ++ s)
  = a ++ replace_scan (String "$" pat) repl 0 (before ++ a) s.
Proof.
  revert before. induction a as [| c a IH]; intros before Ha.
  - cbn [append]. now rewrite append_empty_r.
  - cbn [no_dollar] in Ha. apply andb_true_iff in Ha as [Hc Ha].
    apply negb_true_iff, Ascii.eqb_neq in Hc.
    cbn [append]. rewrite replace_scan_pass.
    + rewrite IH by assumption. now rewrite append_assoc.
    + rewrite prefix_cons.
      destruct (Ascii.eqb "$" c) eqn:E; [| reflexivity].
      apply Ascii.eqb_eq in E. congruence.
Qed.

(** The scan for one placeholder passes over the other one. *)
Lemma replace_scan_other (pat repl q before s : string) :
  no_dollar q = true ->
  String.prefix (String "$" pat) (String "$" q ++ s) = false ->
  replace_scan (String "$" pat) repl 0 before (String "$" q ++ s)
  = String "$" q
      ++ replace_scan (String "$" pat) repl 0 (before ++ String "$" q) s.
Proof.
  intros Hq Hp. cbn [append] in *. rewrite replace_scan_pass by assumption.
  rewrite replace_scan_text by assumption. now rewrite append_assoc.
Qed.

Lemma render_version_pass (ctx : Context.t) (pieces : list piece)
  (before : string) :
  well_formed pieces = true ->
  no_dollar (piece_value ctx Version) = true ->
  replace_scan version_placeholder (piece_value ctx Version) 0 before
    (render pieces)
  = render (map (version_filled ctx) pieces).
Proof.
  intros Hwf Hv. revert before.
  induction pieces as [| p pieces IH]; intros before; [reflexivity |].
  cbn [well_formed forallb] in Hwf. apply andb_true_iff in Hwf as [Hp Hwf].
  cbn [render fold_right map]. fold (render pieces).
  fold (render (map (version_filled ctx) pieces)).
  destruct p as [a | |]; cbn [piece_source version_filled].
  - unfold version_placeholder. rewrite replace_scan_text by assumption.
    fold version_placeholder. now rewrite IH.
  - rewrite replace_scan_match by discriminate.
    rewrite getSubstitution_no_dollar by assumption. now rewrite IH.
  - unfold version_placeholder, notes_placeholder.
    rewrite replace_scan_other; [| reflexivity | reflexivity].
    fold version_placeholder. now rewrite IH.
Qed.

Lemma render_notes_pass (ctx : Context.t) (pieces : list piece)
  (before : string) :
  well_formed pieces = true ->
  no_dollar (piece_value ctx Notes) = true ->
  replace_scan notes_placeholder (piece_value ctx Notes) 0 before
    (render pieces)
  = render (map (notes_filled ctx) pieces).
Proof.
  intros Hwf Hn. revert before.
  induction pieces as [| p pieces IH]; intros before; [reflexivity |].
  cbn [well_formed forallb] in Hwf. apply andb_true_iff in Hwf as [Hp Hwf].
  cbn [render fold_right map]. fold (render pieces).
  fold (render (map (notes_filled ctx) pieces)).
  destruct p as [a | |]; cbn [piece_source notes_filled].
  - unfold notes_placeholder. rewrite replace_scan_text by assumption.
    fold notes_placeholder. now rewrite IH.
  - unfold version_placeholder, notes_placeholder.
    rewrite replace_scan_other; [| reflexivity | reflexivity].
    fold notes_placeholder. now rewrite IH.
  - rewrite replace_scan_match by discriminate.
    rewrite getSubstitution_no_dollar by assumption. now rewrite IH.
Qed.

Lemma well_formed_version_filled (ctx : Context.t) (pieces : list piece) :
  well_formed pieces = true ->
  no_dollar (piece_value ctx Version) = true ->
  well_formed (map (version_filled ctx) pieces) = true.
Proof.
  intros Hwf Hv. induction pieces as [| p pieces IH]; [reflexivity |].
  cbn [well_formed forallb] in Hwf. apply andb_true_iff in Hwf as [Hp Hwf].
  cbn [map well_formed forallb]. fold (well_formed (map (version_filled ctx) pieces)).
  rewrite IH by assumption.
  now destruct p; cbn [version_filled]; rewrite ?Hp, ?Hv.
Qed.

Lemma render_filled (ctx : Context.t) (pieces : list piece) :
  render (map (notes_filled ctx) (map (version_filled ctx) pieces))
  = fill ctx pieces.
Proof.
  induction pieces as [| p pieces IH]; [reflexivity |].
  cbn [map render fill fold_right]. fold (fill ctx pieces).
  fold (render (map (notes_filled ctx) (map (version_filled ctx) pieces))).
  rewrite IH. now destruct p.
Qed.

Lemma no_dollar_fill (ctx : Context.t) (pieces : list piece) :
  well_formed pieces = true ->
  no_dollar (piece_value ctx Version) = true ->
  no_dollar (piece_value ctx Notes) = true ->
  no_dollar (fill ctx pieces) = true.
Proof.
  intros Hwf Hv Hn. induction pieces as [| p pieces IH]; [reflexivity |].
  cbn [well_formed forallb] in Hwf. apply andb_true_iff in Hwf as [Hp Hwf].
  cbn [fill fold_right]. fold (fill ctx pieces).
  rewrite no_dollar_app, IH by assumption.
  destruct p as [a | |]; [cbn [piece_value]; now rewrite Hp | now rewrite Hv | now rewrite Hn].
Qed.

(** On a template whose dollar signs all start a placeholder, and with
    values free of dollar signs, interpolation puts each value in the place
    of its placeholder and leaves the text as it is. *)
Lemma interpolateString_fill (ctx : Context.t) (pieces : list piece) :
  well_formed pieces = true ->
  no_dollar (piece_value ctx Version) = true ->
  no_dollar (piece_value ctx Notes) = true ->
  interpolateString ctx (render pieces) = fill ctx pieces.
Proof.
  intros Hwf Hv Hn. unfold interpolateString, replace_g.
  change (or_else (NextRelease.version (nextRelease ctx)) "")
    with (piece_value ctx Version).
  change (or_else (NextRelease.notes (nextRelease ctx)) "")
    with (piece_value ctx Notes).
  rewrite render_version_pass by assumption.
  rewrite render_notes_pass
    by (try apply well_formed_version_filled; assumption).
  apply render_filled.
Qed.

(** Text that holds neither placeholder is left as it is. *)
Lemma interpolateString_fixed (ctx : Context.t) (s : string) :
  ~ occurs version_placeholder s -> ~ occurs notes_placeholder s ->
  interpolateString ctx s = s.
Proof.
  intros Hv Hn. unfold interpolateString, replace_g.
  rewrite (replace_scan_no_occurrence version_placeholder _ s "" Hv).
  now apply replace_scan_no_occurrence.
Qed.

(** C8, as the code has it.  Interpolation never fails and works in two
    passes.  With a version value and a notes value free of dollar signs
    (the empty string standing for an absent value), the first pass cuts
    the template at every occurrence of the version placeholder and joins
    the segments with the version; the second pass cuts the result of the
    first at every occurrence of the notes placeholder and joins with the
    notes; the segments, which hold no occurrence, are left as they are.
    On a template whose dollar signs all start one of the two placeholders
    this is the replacement of each placeholder of the template by its
    value, all other text unchanged. *)
Theorem interpolateString_two_passes (ctx : Context.t) :
  let version := or_else (NextRelease.version (nextRelease ctx)) "" in
  let notes := or_else (NextRelease.notes (nextRelease ctx)) "" in
  no_dollar version = true ->
  no_dollar notes = true ->
  (forall template,
      exists first_pass second_pass,
        template = join version_placeholder first_pass
        /\ Forall (fun x => ~ occurs version_placeholder x) first_pass
        /\ join version first_pass = join notes_placeholder second_pass
        /\ Forall (fun x => ~ occurs notes_placeholder x) second_pass
        /\ interpolateString ctx template = join notes second_pass)
  /\ (forall pieces,
         well_formed pieces = true ->
         interpolateString ctx (render pieces) = fill ctx pieces).
Proof.
  intros version notes Hv Hn. split.
  - intros template.
    destruct (replace_g_segments version_placeholder version template)
      as (segs & Ht & Hsegs & Hrep); [discriminate | assumption |].
    destruct (replace_g_segments notes_placeholder notes (join version segs))
      as (segs' & Ht' & Hsegs' & Hrep'); [discriminate | assumption |].
    exists segs, segs'. repeat split; try assumption.
    unfold interpolateString. fold version. fold notes.
    now rewrite Hrep, Hrep'.
  - intros pieces Hwf. now apply interpolateString_fill.
Qed.

Lemma interpolateString_two_passes_witness :
  (exists first_pass second_pass,
      "Release ${nextRelease.version}: ${nextRelease.notes}$"
      = join version_placeholder first_pass
      /\ join "1.2.0" first_pass = join notes_placeholder second_pass
      /\ interpolateString Scenario.context
           "Release ${nextRelease.version}: ${nextRelease.notes}$"
         = join "fix bug" second_pass)
  /\ interpolateString Scenario.context
       "${nextRelease.version}: ${nextRelease.notes}"
     = "1.2.0: fix bug".
Proof.
  split.
  - destruct (proj1 (interpolateString_two_passes Scenario.context
                       eq_refl eq_refl)
                "Release ${nextRelease.version}: ${nextRelease.notes}$")
      as (first_pass & second_pass & H1 & _ & H2 & _ & H3).
    now exists first_pass, second_pass.
  - exact (proj2 (interpolateString_two_passes Scenario.context
                    eq_refl eq_refl)
             [Version; Text ": "; Notes] eq_refl).
Defined.

(** C8 as stated fails on a template in which the version placeholder sits
    inside the text of a notes placeholder.  The template holds one version
    placeholder, between two texts that hold no placeholder, and no notes
    placeholder; with the version absent the first pass leaves the text of
    a notes placeholder, which the second pass replaces: the text around
    the version placeholder is not left unchanged. *)
Lemma interpolation_second_pass_rescans :
  let template := "${nextRelease." ++ version_placeholder ++ "notes}" in
  occursb version_placeholder "${nextRelease." = false
  /\ occursb notes_placeholder "${nextRelease." = false
  /\ occursb version_placeholder "notes}" = false
  /\ occursb notes_placeholder "notes}" = false
  /\ occursb notes_placeholder template = false
  /\ NextRelease.version (nextRelease Scenario.context_no_version) = None
  /\ interpolateString Scenario.context_no_version template = "fix bug"
  /\ interpolateString Scenario.context_no_version template
     <> "${nextRelease." ++ "" ++ "notes}".
Proof.
  cbv zeta. repeat split. discriminate.
Qed.

(** The replacement is a replacement pattern: dollar patterns in the
    release notes are expanded, not copied. *)
Lemma replacement_patterns_are_expanded :
  interpolateString Scenario.context_dollar_notes "Notes: ${nextRelease.notes}"
  = "Notes: costs $5, see ${nextRelease.notes}".
Proof.
  reflexivity.
Qed.

(** C9: interpolating twice is interpolating once whenever the text
    interpolated once holds no placeholder; this is so for every template
    whose dollar signs all start one of the two placeholders, when the
    version and the notes hold no dollar sign. *)
Theorem interpolateString_idempotent (ctx : Context.t) :
  (forall template,
      ~ occurs version_placeholder (interpolateString ctx template) ->
      ~ occurs notes_placeholder (interpolateString ctx template) ->
      interpolateString ctx (interpolateString ctx template)
      = interpolateString ctx template)
  /\ (no_dollar (or_else (NextRelease.version (nextRelease ctx)) "") = true ->
      no_dollar (or_else (NextRelease.notes (nextRelease ctx)) "") = true ->
      forall pieces,
        well_formed pieces = true ->
        interpolateString ctx (interpolateString ctx (render pieces))
        = interpolateString ctx (render pieces)).
Proof.
  split.
  - intros template Hv Hn. now apply interpolateString_fixed.
  - intros Hv Hn pieces Hwf.
    rewrite (interpolateString_fill ctx pieces Hwf Hv Hn).
    pose proof (no_dollar_fill ctx pieces Hwf Hv Hn) as Hfree.
    apply interpolateString_fixed; now apply no_dollar_no_occurrence.
Qed.

Lemma interpolateString_idempotent_witness :
  interpolateString Scenario.context
    (interpolateString Scenario.context
       "Release ${nextRelease.version}: ${nextRelease.notes}")
  = interpolateString Scenario.context
      "Release ${nextRelease.version}: ${nextRelease.notes}"
  /\ interpolateString Scenario.context
       (interpolateString Scenario.context "costs $5 ${nextRelease.version}")
     = interpolateString Scenario.context "costs $5 ${nextRelease.version}".
Proof.
  split.
  - exact (proj2 (interpolateString_idempotent Scenario.context)
             eq_refl eq_refl [Text "Release "; Version; Text ": "; Notes]
             eq_refl).
  - apply (proj1 (interpolateString_idempotent Scenario.context));
      apply not_occurs_iff; reflexivity.
Defined.

(** C9 as stated fails on a template in which the notes placeholder sits
    inside the text of a version placeholder.  The version is [1.2.0] and
    the notes are absent, so no value holds anything like a placeholder;
    interpolating once leaves the text of a version placeholder, and
    interpolating again replaces it. *)
Lemma interpolation_not_idempotent :
  let template := "${nextRelease." ++ notes_placeholder ++ "version}" in
  NextRelease.version (nextRelease Scenario.context_no_notes) = Some "1.2.0"
  /\ NextRelease.notes (nextRelease Scenario.context_no_notes) = None
  /\ interpolateString Scenario.context_no_notes template
     = "${nextRelease.version}"
  /\ interpolateString Scenario.context_no_notes
       (interpolateString Scenario.context_no_notes template)
     = "1.2.0"
  /\ interpolateString Scenario.context_no_notes
       (interpolateString Scenario.context_no_notes template)
     <> interpolateString Scenario.context_no_notes template.
Proof.
  cbv zeta. repeat split. discriminate.
Qed.

(** * Further properties *)

(** ** The effective configuration *)

(** The run reads the configuration through the declared assets, the skip
    guard, the composed message and the last line only. *)
Lemma success_same
  (w : World) (env : Env.t) (cfg cfg' : PluginConfig.t) (ctx : Context.t) :
  rawAssets cfg = rawAssets cfg' ->
  (negb (truthy (prereleaseEnabled cfg)) && isPrerelease ctx)%bool
  = (negb (truthy (prereleaseEnabled cfg')) && isPrerelease ctx)%bool ->
  formatMessage cfg ctx = formatMessage cfg' ctx ->
  lastLine cfg ctx = lastLine cfg' ctx ->
  run w env cfg ctx = run w env cfg' ctx.
Proof.
  intros Ha Hg Hf Hl.
  unfold run, success, try_block, update_step, updated_text,
    initial_post_args, resolveAssets.
  now rewrite Ha, Hg, Hf, Hl.
Qed.

(** X1: on a prerelease branch the base settings are not read.  Two
    configurations with the same assets and the same prerelease settings
    give the same run, whatever their base [changelog], [lastCommitText],
    [lastLine] and [message]: a prerelease setting that is left out falls
    back to its default, never to the base setting. *)
Theorem prerelease_branch_ignores_base_settings
  (w : World) (env : Env.t) (cfg cfg' : PluginConfig.t) (ctx : Context.t) :
  isPrerelease ctx = true ->
  PluginConfig.assets cfg = PluginConfig.assets cfg' ->
  PluginConfig.prerelease cfg = PluginConfig.prerelease cfg' ->
  run w env cfg ctx = run w env cfg' ctx.
Proof.
  intros Hp Ha Hpre.
  assert (Hc : prereleaseConfig cfg = prereleaseConfig cfg')
    by (unfold prereleaseConfig; now rewrite Hpre).
  apply success_same.
  - unfold rawAssets. now rewrite Ha.
  - unfold prereleaseEnabled. now rewrite Hc.
  - unfold formatMessage, lastCommitBody, rawMessageTemplate,
      includeLastCommitText, includeChangelog.
    now rewrite Hp, Hc.
  - unfold lastLine. now rewrite Hp, Hc.
Qed.

Lemma prerelease_branch_ignores_base_settings_witness :
  run Scenario.world Scenario.env Scenario.config_beta Scenario.context_beta
  = run Scenario.world Scenario.env Scenario.config_beta_bare
      Scenario.context_beta.
Proof.
  apply prerelease_branch_ignores_base_settings; reflexivity.
Defined.

(** X2: on a branch that is not a prerelease branch the prerelease settings
    are not read, [enabled] included: configurations that agree on the
    assets and on the four base settings give the same run. *)
Theorem release_branch_ignores_prerelease_settings
  (w : World) (env : Env.t) (cfg cfg' : PluginConfig.t) (ctx : Context.t) :
  isPrerelease ctx = false ->
  PluginConfig.assets cfg = PluginConfig.assets cfg' ->
  PluginConfig.changelog cfg = PluginConfig.changelog cfg' ->
  PluginConfig.lastCommitText cfg = PluginConfig.lastCommitText cfg' ->
  PluginConfig.lastLine cfg = PluginConfig.lastLine cfg' ->
  PluginConfig.message cfg = PluginConfig.message cfg' ->
  run w env cfg ctx = run w env cfg' ctx.
Proof.
  intros Hp Ha Hc Ht Hl Hm.
  apply success_same.
  - unfold rawAssets. now rewrite Ha.
  - now rewrite Hp, !andb_false_r.
  - unfold formatMessage, lastCommitBody, rawMessageTemplate,
      includeLastCommitText, includeChangelog.
    now rewrite Hp, Hc, Ht, Hm.
  - unfold lastLine. now rewrite Hp, Hl.
Qed.

Lemma release_branch_ignores_prerelease_settings_witness :
  run Scenario.world Scenario.env Scenario.config_beta Scenario.context
  = run Scenario.world Scenario.env
      {| PluginConfig.assets := PluginConfig.assets Scenario.config_beta;
         PluginConfig.prerelease := None;
         PluginConfig.changelog := PluginConfig.changelog Scenario.config_beta;
         PluginConfig.lastCommitText :=
           PluginConfig.lastCommitText Scenario.config_beta;
         PluginConfig.lastLine := PluginConfig.lastLine Scenario.config_beta;
         PluginConfig.message := PluginConfig.message Scenario.config_beta |}
      Scenario.context.
Proof.
  apply release_branch_ignores_prerelease_settings; reflexivity.
Defined.

Lemma or_else_unset (s : option string) (d : string) :
  unset s -> or_else s d = d.
Proof.
  unfold unset. destruct s as [v |]; cbn; [| reflexivity].
  destruct (String.eqb v "") eqn:E; [reflexivity |].
  intros ->. now rewrite String.eqb_refl in E.
Qed.

Lemma interpolateString_no_dollar (ctx : Context.t) (s : string) :
  no_dollar s = true -> interpolateString ctx s = s.
Proof.
  intros H. apply interpolateString_fixed;
    now apply no_dollar_no_occurrence.
Qed.

(** X3: the default announcement.  When no message template is configured
    (unset or empty) and the version holds no dollar sign, the composed
    message starts with [New release: ] and the version, or on a prerelease
    branch with [Prerelease: ] and the version, followed by a blank line;
    a release without a version is announced with the word [undefined]. *)
Theorem default_announcement (cfg : PluginConfig.t) (ctx : Context.t) :
  let version := to_string (NextRelease.version (nextRelease ctx)) in
  no_dollar version = true ->
  (isPrerelease ctx = false ->
   unset (PluginConfig.message cfg) ->
   exists sections,
     formatMessage cfg ctx = "New release: " ++ version ++ nl ++ nl ++ sections)
  /\ (isPrerelease ctx = true ->
      unset (PrereleaseConfig.message (prereleaseConfig cfg)) ->
      exists sections,
        formatMessage cfg ctx
        = "Prerelease: " ++ version ++ nl ++ nl ++ sections).
Proof.
  intros version Hv.
  split; intros Hp Hm; eexists; rewrite formatMessage_closed_form;
    unfold rawMessageTemplate; rewrite Hp, (or_else_unset _ _ Hm);
    fold version;
    (rewrite interpolateString_no_dollar by (cbn; exact Hv));
    rewrite !append_assoc; reflexivity.
Qed.

Lemma default_announcement_witness :
  (exists sections,
      formatMessage Scenario.config Scenario.context
      = "New release: 1.2.0" ++ nl ++ nl ++ sections)
  /\ exists sections,
      formatMessage Scenario.config_beta_bare
        {| Context.nextRelease :=
             {| NextRelease.version := None; NextRelease.notes := None |};
           Context.commits := [];
           Context.branch := Context.branch Scenario.context_beta |}
      = "Prerelease: undefined" ++ nl ++ nl ++ sections.
Proof.
  split.
  - exact (proj1 (default_announcement Scenario.config Scenario.context
                    eq_refl) eq_refl eq_refl).
  - exact (proj2 (default_announcement Scenario.config_beta_bare
                    {| Context.nextRelease :=
                         {| NextRelease.version := None;
                            NextRelease.notes := None |};
                       Context.commits := [];
                       Context.branch := Context.branch Scenario.context_beta |}
                    eq_refl) eq_refl eq_refl).
Defined.

(** ** The trace of a run *)

(** What the upload loop adds to the trace and to the links. *)
Lemma upload_loop_trace (w : World) (env : Env.t)
  (resolved : list (string * string)) (st st' : State) (c : completion unit) :
  upload_loop w env resolved st = (c, st') ->
  exists evs k,
    trace st' = (trace st ++ evs)%list
    /\ downloadLinks st' = (downloadLinks st ++ links_of_events evs)%list
    /\ upload_targets evs = firstn k (resolved_targets w resolved)
    /\ (c = Normal tt ->
        k = List.length resolved /\ forallb returned evs = true)
    /\ Forall (loop_event env (threadTs st)) evs.
Proof.
  revert st. induction resolved as [| [filePath label] rest IH]; intros st H.
  - inversion H. subst. exists [], 0. rewrite !app_nil_r.
    repeat split; constructor.
  - destruct (existsSync w (trace st) (path_resolve w filePath)) eqn:Hex.
    + rewrite (upload_loop_step w env filePath label rest st Hex) in H.
      cbv zeta in H.
      destruct (files_uploadV2 w _ _) as [resp | e] eqn:Er.
      * destruct (uploaded_file resp) as [f |] eqn:Ef;
          apply IH in H; destruct H as (evs & k & Ht & Hl & Hu & Hn & Ha);
          cbn [add_link add_events trace downloadLinks threadTs] in Ht, Hl, Ha;
          eexists (_ :: _ :: _ :: evs), (S k);
          (split; [rewrite Ht, <- !app_assoc; reflexivity |]);
          (split;
           [rewrite Hl, <- ?app_assoc; unfold links_of_events;
            cbn [flat_map app upload_args UploadArgs.title]; rewrite Ef;
            reflexivity |]);
          (split;
           [unfold upload_targets in *;
            cbn [flat_map app upload_args UploadArgs.title UploadArgs.file];
            rewrite Hu; reflexivity |]);
          (split;
           [intros Hc; destruct (Hn Hc) as [-> Hr];
            split; [reflexivity | cbn; exact Hr] |]);
          repeat (constructor; [cbn; auto |]); exact Ha.
      * inversion H. subst. cbn [add_events trace downloadLinks].
        eexists [_; _], 1.
        split; [reflexivity |].
        split; [cbn; now rewrite app_nil_r |].
        split; [reflexivity |].
        split; [discriminate |].
        repeat (constructor; [cbn; auto |]). constructor.
    + rewrite (upload_loop_missing w env filePath label rest st Hex) in H.
      inversion H. subst. exists [], 0. rewrite !app_nil_r.
      repeat split; try discriminate. constructor.
Qed.

(** What the update step adds to the trace. *)
Lemma update_step_trace
  (w : World) (env : Env.t) (cfg : PluginConfig.t) (ctx : Context.t)
  (st st' : State) (c : completion unit) :
  update_step w env cfg ctx st = (c, st') ->
  exists evs,
    trace st' = (trace st ++ evs)%list
    /\ initialMessage st' = initialMessage st
    /\ threadTs st' = threadTs st
    /\ (c = Normal tt -> forallb returned evs = true)
    /\ Forall
         (fun ev =>
            match ev with
            | Log _ _ => True
            | Update a _ =>
                UpdateArgs.channel a = slackChannel env
                /\ UpdateArgs.ts a = threadTs st
            | _ => False
            end) evs.
Proof.
  unfold update_step, bind, get_state, update, await, log, emit.
  destruct (0 <? List.length (downloadLinks st))%nat.
  - destruct (chat_update w (trace st) _) as [[] | e] eqn:Eu;
      intros H; inversion H; subst; clear H; simpl_run.
    + eexists [_; _]. rewrite <- app_assoc. repeat split.
      repeat (constructor; [cbn; auto |]). constructor.
    + eexists [_]. repeat split; try discriminate.
      repeat (constructor; [cbn; auto |]). constructor.
  - intros H. inversion H. subst. simpl_run.
    eexists [_]. repeat split.
    repeat (constructor; [cbn; auto |]). constructor.
Qed.

(** What the [catch] block adds to the trace. *)
Lemma catch_block_trace (w : World) (env : Env.t) (e : JsError.t)
  (st : State) :
  exists evs,
    trace (snd (catch_block w env e st)) = (trace st ++ evs)%list
    /\ evs <> []
    /\ forall r, initialMessage st = Some r -> threadTs st = PostResponse.ts r ->
                 Forall (anchored env r) evs.
Proof.
  destruct st as [im ts dl tr].
  unfold catch_block, bind, log, emit, get_state, postMessage, update, await,
    ret, throw; simpl_run.
  destruct (truthy_string ts); simpl_run.
  - destruct (chat_postMessage w _ _); simpl_run.
    + destruct im as [p |]; simpl_run.
      * destruct (PostResponse.message p); simpl_run.
        -- destruct (chat_update w _ _); cbn [snd trace];
             (eexists [_; _; _]; rewrite <- !app_assoc;
              split; [reflexivity |]; split; [discriminate |];
              intros r [= ->] Hts; cbn in Hts; subst;
              repeat (constructor; [cbn; auto |]); constructor).
        -- cbn [snd trace]. eexists [_; _]. rewrite <- !app_assoc.
           split; [reflexivity |]. split; [discriminate |].
           intros r [= ->] Hts. cbn in Hts. subst.
           repeat (constructor; [cbn; auto |]). constructor.
      * cbn [snd trace]. eexists [_; _]. rewrite <- !app_assoc.
        split; [reflexivity |]. split; [discriminate |].
        intros r Hr. discriminate Hr.
    + cbn [snd trace]. eexists [_; _]. rewrite <- !app_assoc.
      split; [reflexivity |]. split; [discriminate |].
      intros r Hr Hts. cbn in Hr, Hts. subst.
      repeat (constructor; [cbn; auto |]). constructor.
  - destruct im as [p |]; simpl_run.
    + destruct (PostResponse.message p); simpl_run.
      * destruct (chat_update w _ _); cbn [snd trace];
          (eexists [_; _]; rewrite <- !app_assoc;
           split; [reflexivity |]; split; [discriminate |];
           intros r [= ->] Hts; cbn in Hts; subst;
           repeat (constructor; [cbn; auto |]); constructor).
      * cbn [snd trace]. eexists [_].
        split; [reflexivity |]. split; [discriminate |].
        intros r [= ->] Hts.
        repeat (constructor; [cbn; auto |]). constructor.
    + cbn [snd trace]. eexists [_].
      split; [reflexivity |]. split; [discriminate |].
      intros r Hr. discriminate Hr.
Qed.

Lemma run_fst_snd
  (w : World) (env : Env.t) (cfg : PluginConfig.t) (ctx : Context.t) :
  run w env cfg ctx
  = (fst (success w env cfg ctx initial_state),
     trace (snd (success w env cfg ctx initial_state))).
Proof.
  unfold run. now destruct (success w env cfg ctx initial_state).
Qed.

Lemma try_block_post_throws
  (w : World) (env : Env.t) (cfg : PluginConfig.t) (ctx : Context.t)
  (assets : JsObject.t) (e : JsError.t) :
  resolveAssets w cfg ctx = Normal assets ->
  chat_postMessage w [] (initial_post_args env cfg ctx) = Throw e ->
  try_block w env cfg ctx initial_state
  = (Throw e,
     add_events initial_state
       [PostMessage (initial_post_args env cfg ctx) (Throw e)]).
Proof.
  intros Hres Hpost.
  unfold try_block, lift, postMessage, await, initial_state.
  unfold bind at 1. rewrite Hres.
  unfold bind at 1. simpl_run. now rewrite Hpost.
Qed.

Lemma links_le_targets (evs : list event) :
  List.length (links_of_events evs) <= List.length (upload_targets evs).
Proof.
  induction evs as [| ev evs IH]; [apply le_n |].
  unfold links_of_events, upload_targets in *. cbn [flat_map].
  rewrite !List.length_app.
  destruct ev as [lvl msg | a o | a [resp | e] | a o];
    cbn [List.length app]; try lia.
  destruct (uploaded_file resp); cbn [List.length]; lia.
Qed.

(** X4: success does nothing at all exactly when a credential is missing.
    It throws the configuration error with an empty trace when
    [SLACK_TOKEN] or [SLACK_CHANNEL] is unset or empty, and in no other
    case: with both set, every run leaves at least a log entry. *)
Theorem nothing_done_iff_credentials_missing
  (w : World) (env : Env.t) (cfg : PluginConfig.t) (ctx : Context.t) :
  snd (run w env cfg ctx) = []
  <-> truthy_string (Env.SLACK_TOKEN env) = false
      \/ truthy_string (Env.SLACK_CHANNEL env) = false.
Proof.
  split.
  - intros Hnil.
    destruct (truthy_string (Env.SLACK_TOKEN env)) eqn:Ht; [| now left].
    destruct (truthy_string (Env.SLACK_CHANNEL env)) eqn:Hc; [| now right].
    exfalso. rewrite run_fst_snd in Hnil. cbn [snd] in Hnil.
    unfold success, slackToken in Hnil. rewrite Ht, Hc in Hnil.
    cbn [negb orb] in Hnil.
    destruct (negb (truthy (prereleaseEnabled cfg)) && isPrerelease ctx)%bool.
    + discriminate Hnil.
    + unfold try_catch in Hnil.
      destruct (try_block w env cfg ctx initial_state) as [[[] | e] st] eqn:Htry.
      * destruct (resolveAssets w cfg ctx) as [assets | e] eqn:Hres.
        -- destruct (chat_postMessage w [] (initial_post_args env cfg ctx))
             as [r | e] eqn:Hpost.
           ++ rewrite (try_block_posted w env cfg ctx assets r Hres Hpost)
                in Htry.
              unfold bind in Htry.
              destruct (upload_loop w env _ _) as [[[] | e] st1] eqn:Hloop;
                [| discriminate].
              apply upload_loop_trace in Hloop
                as (evs & _ & Ht1 & _).
              apply update_step_trace in Htry as (evs2 & Ht2 & _).
              cbn [snd] in Hnil. rewrite Hnil in Ht2. rewrite Ht1 in Ht2.
              cbn in Ht2. discriminate Ht2.
           ++ rewrite (try_block_post_throws w env cfg ctx assets e Hres Hpost)
                in Htry. discriminate.
        -- unfold try_block, lift in Htry.
           rewrite (bind_throw _ _ initial_state initial_state e) in Htry
             by now rewrite Hres.
           discriminate.
      * destruct (catch_block_trace w env e st) as (evs & Ht' & Hne & _).
        rewrite Hnil in Ht'. symmetry in Ht'.
        apply app_eq_nil in Ht' as [_ Ht']. contradiction.
  - intros H. rewrite run_fst_snd. cbn [snd].
    unfold success, slackToken.
    destruct H as [H | H]; rewrite H; cbn [negb orb];
      rewrite ?orb_true_r; reflexivity.
Qed.

Lemma nothing_done_iff_credentials_missing_witness :
  snd (run Scenario.world Scenario.env_empty_channel Scenario.config
         Scenario.context) = []
  /\ snd (run Scenario.world_post_throws Scenario.env Scenario.config
            Scenario.context) <> [].
Proof.
  split.
  - apply (proj2 (nothing_done_iff_credentials_missing Scenario.world
                    Scenario.env_empty_channel Scenario.config
                    Scenario.context)).
    right. reflexivity.
  - intros H.
    destruct (proj1 (nothing_done_iff_credentials_missing
                       Scenario.world_post_throws Scenario.env Scenario.config
                       Scenario.context) H) as [E | E]; discriminate E.
Defined.

(** X5: when the initial post throws there is nothing to annotate.  The
    post is the only transport call of the run: no upload, no update, no
    thread reply, no overwrite; the error is logged and the caller gets
    the error of the post. *)
Theorem post_failure_is_rethrown_bare
  (w : World) (env : Env.t) (cfg : PluginConfig.t) (ctx : Context.t)
  (assets : JsObject.t) (e : JsError.t) :
  try_entered env cfg ctx = true ->
  resolveAssets w cfg ctx = Normal assets ->
  chat_postMessage w [] (initial_post_args env cfg ctx) = Throw e ->
  run w env cfg ctx
  = (Throw e,
     [PostMessage (initial_post_args env cfg ctx) (Throw e);
      Log LogError ("Error during file upload or message update: "
                      ++ JsError.message e)]).
Proof.
  intros Hin Hres Hpost. unfold run.
  rewrite (run_entered w env cfg ctx Hin). unfold try_catch.
  rewrite (try_block_post_throws w env cfg ctx assets e Hres Hpost).
  reflexivity.
Qed.

Lemma post_failure_is_rethrown_bare_witness :
  run Scenario.world_post_throws Scenario.env Scenario.config Scenario.context
  = (Throw Scenario.slack_down,
     [PostMessage
        (initial_post_args Scenario.env Scenario.config Scenario.context)
        (Throw Scenario.slack_down);
      Log LogError
        "Error during file upload or message update: slack is down"]).
Proof.
  exact (post_failure_is_rethrown_bare Scenario.world_post_throws Scenario.env
           Scenario.config Scenario.context [("dist/app.bin", "Binary")]
           Scenario.slack_down eq_refl eq_refl eq_refl).
Defined.

(** X6: a release without declared assets is announced and nothing more.
    With no [assets] in the configuration (or an empty object) and a post
    that returns, the run posts the message, logs it, warns that no file
    was uploaded and returns normally: no glob, no upload, no update. *)
Theorem no_assets_announce_only
  (w : World) (env : Env.t) (cfg : PluginConfig.t) (ctx : Context.t)
  (r : PostResponse.t) :
  try_entered env cfg ctx = true ->
  rawAssets cfg = [] ->
  chat_postMessage w [] (initial_post_args env cfg ctx) = Normal r ->
  run w env cfg ctx
  = (Normal tt,
     [PostMessage (initial_post_args env cfg ctx) (Normal r);
      Log LogInfo (":rocket: Initial release message sent: "
                     ++ to_string (PostResponse.ts r));
      Log LogWarn "No files uploaded. The initial message was not updated."]).
Proof.
  intros Hin Hraw Hpost.
  assert (Hres : resolveAssets w cfg ctx = Normal []).
  { unfold resolveAssets. now rewrite Hraw. }
  apply (run_when_try_returns w env cfg ctx
           (add_events (posted_state env cfg ctx r)
              [Log LogWarn
                 "No files uploaded. The initial message was not updated."])
           Hin).
  now rewrite (try_block_posted w env cfg ctx [] r Hres Hpost).
Qed.

Lemma no_assets_announce_only_witness :
  run Scenario.world Scenario.env Scenario.config_no_assets Scenario.context
  = (Normal tt,
     [PostMessage
        (initial_post_args Scenario.env Scenario.config_no_assets
           Scenario.context)
        (Normal Scenario.initial_response);
      Log LogInfo ":rocket: Initial release message sent: 111.222";
      Log LogWarn "No files uploaded. The initial message was not updated."]).
Proof.
  exact (no_assets_announce_only Scenario.world Scenario.env
           Scenario.config_no_assets Scenario.context
           Scenario.initial_response eq_refl eq_refl eq_refl).
Defined.

Lemma loop_event_anchored (env : Env.t) (r : PostResponse.t)
  (evs : list event) :
  Forall (loop_event env (PostResponse.ts r)) evs ->
  Forall (anchored env r) evs.
Proof.
  apply Forall_impl. intros [lvl msg | a o | a o | a o]; cbn; tauto.
Qed.

(** X7: success swallows no exception.  If the invocation returns normally
    then every Slack call of the run returned: as soon as a post, an
    upload or an update throws, the invocation throws. *)
Theorem normal_return_means_no_call_threw
  (w : World) (env : Env.t) (cfg : PluginConfig.t) (ctx : Context.t) :
  fst (run w env cfg ctx) = Normal tt ->
  forallb returned (snd (run w env cfg ctx)) = true.
Proof.
  rewrite run_fst_snd. cbn [fst snd]. unfold success.
  destruct (negb (truthy_string (slackToken env))
            || negb (truthy_string (Env.SLACK_CHANNEL env)))%bool;
    [discriminate |].
  destruct (negb (truthy (prereleaseEnabled cfg)) && isPrerelease ctx)%bool;
    [reflexivity |].
  unfold try_catch.
  destruct (try_block w env cfg ctx initial_state) as [[[] | e] st] eqn:Htry.
  - intros _. cbn [snd].
    destruct (resolveAssets w cfg ctx) as [assets | e] eqn:Hres.
    + destruct (chat_postMessage w [] (initial_post_args env cfg ctx))
        as [r | e] eqn:Hpost.
      * rewrite (try_block_posted w env cfg ctx assets r Hres Hpost) in Htry.
        unfold bind in Htry.
        destruct (upload_loop w env _ _) as [[[] | e] st1] eqn:Hloop;
          [| discriminate].
        apply upload_loop_trace in Hloop as (evs & k & Ht1 & _ & _ & Hr1 & _).
        apply update_step_trace in Htry as (evs2 & Ht2 & _ & _ & Hr2 & _).
        rewrite Ht2, Ht1, !forallb_app.
        destruct (Hr1 eq_refl) as [_ ->]. now rewrite (Hr2 eq_refl).
      * rewrite (try_block_post_throws w env cfg ctx assets e Hres Hpost)
          in Htry. discriminate.
    + unfold try_block, lift in Htry.
      rewrite (bind_throw _ _ initial_state initial_state e) in Htry
        by now rewrite Hres.
      discriminate.
  - destruct (catch_block_throws w env e st) as (e' & st' & ->).
    discriminate.
Qed.

Lemma normal_return_means_no_call_threw_witness :
  forallb returned
    (snd (run Scenario.world_anomalous Scenario.env Scenario.config
            Scenario.context)) = true.
Proof.
  apply normal_return_means_no_call_threw. reflexivity.
Defined.

(** X8: one channel, one thread.  Once the initial post has returned [r],
    it is the first event of the run, and every later call of the run,
    recovery included, is anchored to it: each upload and the thread reply
    carry the channel and, as thread, the [ts] of [r]; each update targets
    the channel and the [ts] of [r]. *)
Theorem every_call_is_anchored_to_the_post
  (w : World) (env : Env.t) (cfg : PluginConfig.t) (ctx : Context.t)
  (assets : JsObject.t) (r : PostResponse.t) :
  try_entered env cfg ctx = true ->
  resolveAssets w cfg ctx = Normal assets ->
  chat_postMessage w [] (initial_post_args env cfg ctx) = Normal r ->
  exists later,
    snd (run w env cfg ctx)
    = PostMessage (initial_post_args env cfg ctx) (Normal r) :: later
    /\ Forall (anchored env r) later.
Proof.
  intros Hin Hres Hpost. rewrite run_fst_snd. cbn [snd].
  rewrite (run_entered w env cfg ctx Hin). unfold try_catch.
  rewrite (try_block_posted w env cfg ctx assets r Hres Hpost).
  unfold bind.
  destruct (upload_loop w env _ _) as [c1 st1] eqn:Hloop.
  pose proof (upload_loop_keeps w env _ _ _ _ Hloop) as (_ & Him1 & Hts1).
  apply upload_loop_trace in Hloop as (evs1 & k & Ht1 & _ & _ & _ & Ha1).
  cbn [posted_state initialMessage threadTs trace] in Him1, Hts1, Ht1, Ha1.
  apply loop_event_anchored in Ha1.
  assert (Hlog : anchored env r
                   (Log LogInfo (":rocket: Initial release message sent: "
                                   ++ to_string (PostResponse.ts r))))
    by exact I.
  destruct c1 as [[] | e].
  - destruct (update_step w env cfg ctx st1) as [c2 st2] eqn:Hupd.
    apply update_step_trace in Hupd as (evs2 & Ht2 & Him2 & Hts2 & _ & Ha2).
    assert (Ha2' : Forall (anchored env r) evs2).
    { revert Ha2. apply Forall_impl.
      intros [lvl msg | a o | a o | a o]; cbn; rewrite ?Hts1; tauto. }
    destruct c2 as [[] | e].
    + cbn [snd]. rewrite Ht2, Ht1. eexists. split; [reflexivity |].
      constructor; [exact Hlog |]. now apply Forall_app.
    + destruct (catch_block_trace w env e st2) as (evs3 & Ht3 & _ & Ha3).
      rewrite Ht3, Ht2, Ht1. eexists. split; [reflexivity |].
      constructor; [exact Hlog |].
      apply Forall_app. split; [now apply Forall_app |].
      apply Ha3; congruence.
  - destruct (catch_block_trace w env e st1) as (evs3 & Ht3 & _ & Ha3).
    rewrite Ht3, Ht1. eexists. split; [reflexivity |].
    constructor; [exact Hlog |].
    apply Forall_app. split; [assumption |].
    apply Ha3; congruence.
Qed.

Lemma every_call_is_anchored_to_the_post_witness :
  exists later,
    snd (run Scenario.world_upload_throws Scenario.env Scenario.config
           Scenario.context)
    = PostMessage
        (initial_post_args Scenario.env Scenario.config Scenario.context)
        (Normal Scenario.initial_response) :: later
    /\ Forall (anchored Scenario.env Scenario.initial_response) later.
Proof.
  exact (every_call_is_anchored_to_the_post Scenario.world_upload_throws
           Scenario.env Scenario.config Scenario.context
           [("dist/app.bin", "Binary")] Scenario.initial_response
           eq_refl eq_refl eq_refl).
Defined.

(** X9: an upload loop that completes has made one upload call for each
    resolved asset, in the order of the assets, with the resolved path as
    file and the label as title; what it added to the download links are
    the lines of the uploads that came back ok-shaped, in upload order, so
    never more lines than assets. *)
Theorem completed_loop_uploads_each_asset_once
  (w : World) (env : Env.t) (resolved : list (string * string))
  (st st' : State) :
  upload_loop w env resolved st = (Normal tt, st') ->
  exists evs,
    trace st' = (trace st ++ evs)%list
    /\ upload_targets evs = resolved_targets w resolved
    /\ downloadLinks st' = (downloadLinks st ++ links_of_events evs)%list
    /\ List.length (links_of_events evs) <= List.length resolved.
Proof.
  intros H.
  apply upload_loop_trace in H as (evs & k & Ht & Hl & Hu & Hn & _).
  destruct (Hn eq_refl) as [-> _].
  assert (Hall : upload_targets evs = resolved_targets w resolved).
  { rewrite Hu. apply firstn_all2. unfold resolved_targets.
    now rewrite length_map. }
  exists evs. repeat split; try assumption.
  pose proof (links_le_targets evs) as Hle.
  rewrite Hall in Hle. unfold resolved_targets in Hle.
  now rewrite length_map in Hle.
Qed.

Lemma completed_loop_uploads_each_asset_once_witness :
  exists evs,
    trace Scenario.uploaded_state
    = (trace Scenario.posted_at_start ++ evs)%list
    /\ upload_targets evs = [("/repo/dist/app.bin", "Binary")]
    /\ downloadLinks Scenario.uploaded_state
       = links_of_events evs.
Proof.
  destruct (completed_loop_uploads_each_asset_once Scenario.world Scenario.env
              [("dist/app.bin", "Binary")] Scenario.posted_at_start
              Scenario.uploaded_state eq_refl)
    as (evs & Ht & Hu & Hl & _).
  exists evs. repeat split; assumption.
Defined.

(** ** The resolved assets *)

Lemma insert_index_perm (n : N) (p : string * string)
  (l : list (N * (string * string))) :
  Permutation (JsObject.insert_index n p l) ((n, p) :: l).
Proof.
  induction l as [| [m q] l IH]; cbn; [reflexivity |].
  destruct (n <=? m)%N; [reflexivity |].
  rewrite IH. apply perm_swap.
Qed.

Lemma index_properties_perm (o : JsObject.t) :
  Permutation (map snd (JsObject.index_properties o))
    (filter JsObject.is_index o).
Proof.
  induction o as [| p o IH]; cbn; [reflexivity |].
  unfold JsObject.is_index at 1.
  destruct (JsObject.array_index (fst p)) as [n |]; [| exact IH].
  rewrite insert_index_perm. cbn. now rewrite IH.
Qed.

Lemma filter_split_perm {A} (f : A -> bool) (l : list A) :
  Permutation (filter f l ++ filter (fun x => negb (f x)) l) l.
Proof.
  induction l as [| x l IH]; cbn; [reflexivity |].
  destruct (f x); cbn.
  - now rewrite IH.
  - rewrite <- Permutation_middle. now rewrite IH.
Qed.

(** [Object.entries] gives every property once: it only reorders. *)
Lemma entries_perm (o : JsObject.t) : Permutation (JsObject.entries o) o.
Proof.
  unfold JsObject.entries. rewrite index_properties_perm.
  apply filter_split_perm.
Qed.

Lemma in_set_own (o : JsObject.t) (k v : string) (p : string * string) :
  In p (JsObject.set_own o k v) -> p = (k, v) \/ In p o.
Proof.
  induction o as [| [k0 v0] o IH]; cbn.
  - intros [<- | []]. now left.
  - destruct (String.eqb k0 k); cbn.
    + intros [<- | H]; [now left | right; now right].
    + intros [<- | H]; [right; now left |].
      destruct (IH H) as [-> | H']; [now left | right; now right].
Qed.

Lemma keys_set_own (o : JsObject.t) (k v k' : string) :
  In k' (map fst (JsObject.set_own o k v)) -> k' = k \/ In k' (map fst o).
Proof.
  rewrite in_map_iff. intros ([k1 v1] & <- & H).
  destruct (in_set_own o k v _ H) as [[= -> ->] | H']; [now left | right].
  now apply (in_map fst) in H'.
Qed.

Lemma nodup_set_own (o : JsObject.t) (k v : string) :
  NoDup (map fst o) -> NoDup (map fst (JsObject.set_own o k v)).
Proof.
  induction o as [| [k0 v0] o IH]; cbn; intros H.
  - constructor; [intros [] | constructor].
  - inversion H as [| x l Hnot Hnd]. subst.
    destruct (String.eqb k0 k) eqn:E; cbn.
    + apply String.eqb_eq in E. subst k0. now constructor.
    + constructor; [| now apply IH].
      intros Hin. destruct (keys_set_own o k v k0 Hin) as [-> | Hin'].
      * now rewrite String.eqb_refl in E.
      * contradiction.
Qed.

Lemma nodup_set (o : JsObject.t) (k v : string) :
  NoDup (map fst o) -> NoDup (map fst (JsObject.set o k v)).
Proof.
  unfold JsObject.set. destruct (String.eqb k "__proto__");
    [trivial | apply nodup_set_own].
Qed.

Lemma in_set (o : JsObject.t) (k v : string) (p : string * string) :
  In p (JsObject.set o k v) -> p = (k, v) \/ In p o.
Proof.
  unfold JsObject.set. destruct (String.eqb k "__proto__");
    [now right | apply in_set_own].
Qed.

Lemma fold_set_spec (files : list string) (label : string) (o : JsObject.t) :
  let o' := fold_left (fun o file => JsObject.set o file label) files o in
  (NoDup (map fst o) -> NoDup (map fst o'))
  /\ forall p, In p o' -> In p o \/ (In (fst p) files /\ snd p = label).
Proof.
  revert o. induction files as [| f files IH]; intros o; cbn.
  - split; [trivial | now left].
  - destruct (IH (JsObject.set o f label)) as [Hnd Hin]. split.
    + intros H. now apply Hnd, nodup_set.
    + intros p Hp. destruct (Hin p Hp) as [H | [H1 H2]].
      * destruct (in_set o f label p H) as [-> | H']; [right | now left].
        split; [now left | reflexivity].
      * right. split; [now right | assumption].
Qed.

Lemma resolve_loop_sound (w : World) (ctx : Context.t)
  (declared : list (string * string)) (acc : JsObject.t)
  (miss : list string) (resolved : JsObject.t) (missing : list string) :
  resolve_loop w ctx declared acc miss = Normal (resolved, missing) ->
  (NoDup (map fst acc) -> NoDup (map fst resolved))
  /\ forall p,
      In p resolved ->
      In p acc
      \/ exists d files,
          In d declared /\ globbed w ctx d files
          /\ In (fst p) files /\ snd d = snd p.
Proof.
  revert acc miss.
  induction declared as [| [rawPath label] rest IH]; intros acc miss.
  - cbn. intros [= <- <-]. split; [trivial | now left].
  - cbn [resolve_loop].
    destruct (fastGlob w (interpolateString ctx rawPath)) as [files | e]
      eqn:Hfiles; [| discriminate].
    assert (Hglob : globbed w ctx (rawPath, label) files) by exact Hfiles.
    destruct (List.length files =? 0)%nat; intros Hloop.
    + destruct (IH _ _ Hloop) as [Hnd Hin].
      split; [exact Hnd |].
      intros p Hp.
      destruct (Hin p Hp) as [H | (d & fs & Hd & Hg & Hm & Hl)];
        [now left | right].
      exists d, fs. split; [now right | now repeat split].
    + destruct (fold_set_spec files label acc) as [Hnd0 Hin0].
      destruct (IH _ _ Hloop) as [Hnd Hin].
      split; [intros H; now apply Hnd, Hnd0 |].
      intros p Hp.
      destruct (Hin p Hp) as [H | (d & fs & Hd & Hg & Hm & Hl)].
      * destruct (Hin0 p H) as [H' | [H1 H2]]; [now left | right].
        exists (rawPath, label), files. split; [now left |].
        split; [exact Hglob | split; [exact H1 | now symmetry]].
      * right. exists d, fs. split; [now right | now repeat split].
Qed.

(** X10: what [resolveAssets] returns holds nothing but matches, and no
    path twice.  Every asset that the upload loop is given is a path that
    the glob call of a declared pattern, interpolated, returned, under the
    label of that declaration; and no path comes twice, also when several
    patterns match it.  Paths are compared as the strings that the glob
    calls returned: two spellings of one file are two paths. *)
Theorem resolved_assets_are_matches_with_distinct_paths
  (w : World) (cfg : PluginConfig.t) (ctx : Context.t)
  (resolved : JsObject.t) :
  resolveAssets w cfg ctx = Normal resolved ->
  NoDup (map fst (JsObject.entries resolved))
  /\ forall file label,
      In (file, label) (JsObject.entries resolved) ->
      exists d files,
        In d (JsObject.entries (rawAssets cfg))
        /\ globbed w ctx d files
        /\ In file files
        /\ snd d = label.
Proof.
  intros Hres. apply resolveAssets_normal in Hres.
  destruct (resolve_loop_sound w ctx _ _ _ _ _ Hres) as [Hnd Hin].
  split.
  - apply (Permutation_NoDup (l := map fst resolved)).
    + apply Permutation_map. symmetry. apply entries_perm.
    + apply Hnd. constructor.
  - intros file label Hentry.
    apply (Permutation_in _ (entries_perm _)) in Hentry.
    destruct (Hin _ Hentry) as [[] | H]. exact H.
Qed.

Lemma resolved_assets_are_matches_with_distinct_paths_witness :
  NoDup (map fst (JsObject.entries [("dist/app.bin", "Application")]))
  /\ exists d files,
      In d (JsObject.entries (rawAssets Scenario.config_overlap))
      /\ globbed Scenario.world Scenario.context d files
      /\ In "dist/app.bin" files
      /\ snd d = "Application".
Proof.
  destruct (resolved_assets_are_matches_with_distinct_paths Scenario.world
              Scenario.config_overlap Scenario.context
              [("dist/app.bin", "Application")] eq_refl) as [Hnd Hin].
  split; [exact Hnd |].
  apply (Hin "dist/app.bin" "Application"). now left.
Defined.

(** ** The excerpt, once more *)

Lemma length_rev (s : string) : String.length (rev s) = String.length s.
Proof.
  induction s as [| c s IH]; [reflexivity |].
  change (String c s) with (String c "" ++ s).
  rewrite rev_app, !length_app, IH. cbn. lia.
Qed.

Lemma strip_all_suffix (ws : list string) (fuel : nat) (s : string) :
  exists a, s = a ++ strip_all ws fuel s.
Proof.
  revert s. induction fuel as [| fuel IH]; intros s; cbn [strip_all].
  - now exists "".
  - destruct (strip_one ws s) as [r |] eqn:E; [| now exists ""].
    destruct (strip_one_some ws s r E) as (w & _ & ->).
    destruct (IH r) as [a Ha]. exists (w ++ a).
    rewrite append_assoc. now rewrite <- Ha.
Qed.

Lemma prefix_app_false (w u x : string) :
  String.prefix w (u ++ x) = false -> String.prefix w u = false.
Proof.
  intros H. destruct (String.prefix w u) eqn:E; [| reflexivity].
  now rewrite (prefix_app_l w u x E) in H.
Qed.

Lemma strip_one_stuck (ws : list string) (s : string) :
  (forall w, In w ws -> String.prefix w s = false) -> strip_one ws s = None.
Proof.
  induction ws as [| w ws IH]; intros H; cbn; [reflexivity |].
  rewrite (H w (or_introl eq_refl)). apply IH.
  intros w' Hw'. apply H. now right.
Qed.

Lemma strip_all_stuck (ws : list string) (fuel : nat) (s : string) :
  strip_one ws s = None -> strip_all ws fuel s = s.
Proof.
  intros H. destruct fuel; cbn [strip_all]; [reflexivity | now rewrite H].
Qed.

(** What [trim] returns neither starts nor ends with white space. *)
Lemma trim_trimmed (s : string) : trimmed (trim s).
Proof.
  intros w Hw. unfold trim, trimEnd. set (t := trimStart s). split.
  - destruct (strip_all_suffix (map rev white_space) (String.length t) (rev t))
      as [a Ha].
    assert (Ht : t = rev (strip_all (map rev white_space) (String.length t)
                             (rev t)) ++ rev a).
    { rewrite <- rev_app, <- Ha. now rewrite rev_involutive. }
    assert (Hp : String.prefix w t = false).
    { apply (strip_one_none white_space); [| exact Hw].
      unfold t, trimStart. apply strip_all_done; [reflexivity | lia]. }
    rewrite Ht in Hp. exact (prefix_app_false _ _ _ Hp).
  - rewrite rev_involutive.
    apply (strip_one_none (map rev white_space)); [| now apply in_map].
    apply strip_all_done; [reflexivity |]. rewrite length_rev. lia.
Qed.

Lemma trimmed_fixed (s : string) : trimmed s -> trim s = s.
Proof.
  intros H. unfold trim, trimEnd.
  assert (Hs : trimStart s = s).
  { unfold trimStart. apply strip_all_stuck, strip_one_stuck.
    intros w Hw. apply (H w Hw). }
  rewrite Hs, strip_all_stuck; [apply rev_involutive |].
  apply strip_one_stuck. intros w' Hw'.
  apply in_map_iff in Hw' as (w & <- & Hw). apply (H w Hw).
Qed.

(** X11: the excerpt of the last commit is trimmed.  Whatever the commit
    message and the settings, the excerpt that [success] computes neither
    starts nor ends with a white-space character, and trimming it again
    changes nothing. *)
Theorem excerpt_is_trimmed (cfg : PluginConfig.t) (ctx : Context.t) :
  trimmed (lastCommitBody cfg ctx)
  /\ trim (lastCommitBody cfg ctx) = lastCommitBody cfg ctx.
Proof.
  assert (H : trimmed (lastCommitBody cfg ctx)).
  { unfold lastCommitBody.
    destruct (truthy (includeLastCommitText cfg ctx)
              && (0 <? List.length (commits ctx))%nat)%bool;
      [| exact (trim_trimmed "")].
    destruct (commits ctx) as [| c older];
      [exact (trim_trimmed "") | apply trim_trimmed]. }
  split; [exact H | now apply trimmed_fixed].
Qed.

Lemma split_nl_no_lf (s : string) :
  Forall (fun l => no_lf l = true) (split_nl s).
Proof.
  induction s as [| c s IH]; cbn [split_nl].
  - constructor; [reflexivity | constructor].
  - destruct (Ascii.eqb c LF) eqn:E.
    + constructor; [reflexivity | exact IH].
    + destruct (split_nl s) as [| l ls].
      * constructor; [| constructor]. cbn [no_lf]. now rewrite E.
      * inversion IH as [| x xs Hl Hls].
        constructor; [| exact Hls]. cbn [no_lf]. rewrite E. exact Hl.
Qed.

Lemma no_lf_app (a b : string) :
  no_lf (a ++ b) = (no_lf a && no_lf b)%bool.
Proof.
  induction a as [| c a IH]; cbn; [reflexivity |].
  now rewrite IH, andb_assoc.
Qed.

(** Text without a line feed that starts what a line and a line feed
    start is the start of the line. *)
Lemma no_lf_prefix (a b x y : string) :
  no_lf a = true -> a ++ x = b ++ nl ++ y -> exists b', b = a ++ b'.
Proof.
  revert b. induction a as [| c a IH]; intros b Ha H.
  - now exists b.
  - cbn [no_lf] in Ha. apply andb_true_iff in Ha as [Hc Ha].
    destruct b as [| d b]; cbn in H; injection H as -> H.
    + now rewrite Ascii.eqb_refl in Hc.
    + destruct (IH b Ha H) as [b' ->]. now exists b'.
Qed.

(** When a line followed by a line feed starts a white-space-only text,
    the line is white space only. *)
Lemma blank_line_before_lf (l r : string) :
  no_lf l = true -> blank (l ++ nl ++ r) -> blank l.
Proof.
  intros Hl H. remember (l ++ nl ++ r) as s eqn:E. revert l Hl E.
  induction H as [| w s' Hw Hs IH]; intros l Hl E.
  - destruct l; discriminate.
  - destruct l as [| c l']; [constructor |].
    pose proof (no_empty_entry_spec white_space w eq_refl Hw) as Hne.
    assert (Htail : no_lf (drop 1 w) = true).
    { assert (Hall : forallb (fun w => no_lf (drop 1 w)) white_space = true)
        by reflexivity.
      rewrite forallb_forall in Hall. now apply Hall. }
    destruct w as [| d w']; [congruence |].
    cbn in E, Htail. injection E as -> E.
    destruct (no_lf_prefix w' l' s' r Htail E) as [l'' ->].
    rewrite append_assoc in E. apply app_inv_head in E.
    cbn [no_lf] in Hl. apply andb_true_iff in Hl as [_ Hl].
    rewrite no_lf_app in Hl. apply andb_true_iff in Hl as [_ Hl].
    change (String c (w' ++ l'')) with (String c w' ++ l'').
    constructor; [assumption | now apply IH].
Qed.

Lemma kept_lines_give_text (l : string) (ls : list string) :
  no_lf l = true -> keep_line l = true -> trim (join nl (l :: ls)) <> "".
Proof.
  intros Hl Hk H. apply trim_empty_iff_blank in H.
  assert (Hb : blank l).
  { destruct ls as [| l2 ls]; [exact H |].
    now apply (blank_line_before_lf l (join nl (l2 :: ls))). }
  apply trim_empty_iff_blank in Hb.
  unfold keep_line in Hk. rewrite Hb in Hk. discriminate.
Qed.

Lemma filter_nil_iff {A} (f : A -> bool) (l : list A) :
  filter f l = [] <-> Forall (fun x => f x = false) l.
Proof.
  induction l as [| x l IH]; cbn.
  - split; [constructor | reflexivity].
  - destruct (f x) eqn:E.
    + split; [discriminate |]. intros H. inversion H. congruence.
    + rewrite IH. split; [now constructor | intros H; now inversion H].
Qed.

Lemma Forall_tl {A} (P : A -> Prop) (l : list A) :
  Forall P l -> Forall P (tl l).
Proof.
  intros [| x l' _ H]; [constructor | exact H].
Qed.

Lemma dropped_line_iff (l : string) :
  keep_line l = false <-> is_blank l = true \/ is_trailer l = true.
Proof.
  rewrite keep_line_spec.
  destruct (is_blank l), (is_trailer l); cbn; intuition discriminate.
Qed.

(** X12: when the excerpt is empty.  The excerpt of the last commit is the
    empty string exactly when the last-commit setting that applies is
    falsy or every line after the subject of the first commit message is
    white space only or a trailer; that covers a release without commits
    and a message that is its subject only.  A line that is kept always
    leaves text. *)
Theorem excerpt_empty_iff (cfg : PluginConfig.t) (ctx : Context.t) :
  lastCommitBody cfg ctx = ""
  <-> truthy (includeLastCommitText cfg ctx) = false
      \/ Forall (fun l => is_blank l = true \/ is_trailer l = true)
           (body_lines ctx).
Proof.
  unfold lastCommitBody, body_lines, commits.
  destruct (truthy (includeLastCommitText cfg ctx)); cbn [andb].
  2: { split; [now left | reflexivity]. }
  destruct (Context.commits ctx) as [| c older]; cbn [List.length Nat.ltb].
  { split; [right; constructor | reflexivity]. }
  change (0 <? S (List.length older))%nat with true. cbv iota zeta.
  pose proof (Forall_tl _ _ (split_nl_no_lf (Commit.message c))) as Hlf.
  set (body := tl (split_nl (Commit.message c))) in *.
  split.
  - intros H. right.
    destruct (filter keep_line body) as [| l ls] eqn:E.
    + apply filter_nil_iff in E.
      eapply Forall_impl; [| exact E].
      intros l Hl. now apply dropped_line_iff.
    + exfalso. revert H.
      assert (Hin : In l (filter keep_line body)) by (rewrite E; now left).
      apply filter_In in Hin as [Hin Hk].
      rewrite Forall_forall in Hlf.
      now apply kept_lines_give_text; [apply Hlf |].
  - intros [H | H]; [discriminate |].
    assert (E : filter keep_line body = []).
    { apply filter_nil_iff. eapply Forall_impl; [| exact H].
      intros l Hl. now apply dropped_line_iff. }
    rewrite E. reflexivity.
Qed.

(** ** The earlier [success] *)

Lemma add_events_nil (st : State) : add_events st [] = st.
Proof.
  destruct st. unfold add_events. simpl_run. now rewrite app_nil_r.
Qed.

Lemma add_events_app (st : State) (a b : list event) :
  add_events (add_events st a) b = add_events st (a ++ b)%list.
Proof.
  unfold add_events. simpl_run. now rewrite <- app_assoc.
Qed.

Lemma legacy_loop_all_missing (w : World) (env : Env.t)
  (thread : option string) (declared : list (string * string)) :
  (forall d tr, In d declared ->
                existsSync w tr (path_resolve w (fst d)) = false) ->
  forall st,
    Legacy.upload_loop w env thread declared st
    = (Normal tt, add_events st (legacy_warnings w declared)).
Proof.
  induction declared as [| [filePath label] rest IH]; intros Hgone st.
  - cbn. now rewrite add_events_nil.
  - cbn [Legacy.upload_loop]. unfold bind at 1. unfold bind at 1.
    unfold get_state at 1.
    pose proof (Hgone (filePath, label) (trace st) (or_introl eq_refl))
      as Hhere.
    cbn [fst] in Hhere. rewrite Hhere.
    unfold log, emit at 1.
    rewrite IH by (intros d tr Hd; apply Hgone; now right).
    cbn [legacy_warnings map fst].
    change (Log LogWarn ("File not found: " ++ path_resolve w filePath)
              :: map (fun d => Log LogWarn
                                 ("File not found: " ++ path_resolve w (fst d)))
                   rest)
      with ([Log LogWarn ("File not found: " ++ path_resolve w filePath)]
              ++ legacy_warnings w rest)%list.
    now rewrite <- add_events_app.
Qed.

(** X13: the earlier [success] swallows every error of its [try] block.
    With both credentials set it returns normally whatever the Slack calls
    do; when a call throws, the run ends with the log line of the error:
    nothing is thrown to the caller, and no reply or update follows. *)
Theorem legacy_errors_are_swallowed
  (w : World) (env : Env.t) (cfg : PluginConfig.t) (ctx : Context.t) :
  truthy_string (Env.SLACK_TOKEN env) = true ->
  truthy_string (Env.SLACK_CHANNEL env) = true ->
  fst (Legacy.run w env cfg ctx) = Normal tt
  /\ forall e st,
      Legacy.try_block w env cfg ctx initial_state = (Throw e, st) ->
      snd (Legacy.run w env cfg ctx)
      = (trace st
           ++ [Log LogError ("Error during file upload or message update: "
                               ++ JsError.message e)])%list.
Proof.
  intros Htoken Hchannel.
  unfold Legacy.run, Legacy.success, Legacy.slackToken.
  rewrite Htoken, Hchannel. cbn [negb orb]. unfold try_catch.
  destruct (Legacy.try_block w env cfg ctx initial_state) as [[[] | e] st].
  - split; [reflexivity | discriminate].
  - unfold Legacy.catch_block, log, emit. simpl_run.
    split; [reflexivity |]. now intros e' st' [= <- <-].
Qed.

Lemma legacy_errors_are_swallowed_witness :
  fst (Legacy.run Scenario.world_post_throws Scenario.env Scenario.config
         Scenario.context) = Normal tt
  /\ snd (Legacy.run Scenario.world_post_throws Scenario.env Scenario.config
            Scenario.context)
     = [PostMessage
          (Legacy.initial_post_args Scenario.env Scenario.config
             Scenario.context)
          (Throw Scenario.slack_down);
        Log LogError
          "Error during file upload or message update: slack is down"].
Proof.
  destruct (legacy_errors_are_swallowed Scenario.world_post_throws
              Scenario.env Scenario.config Scenario.context
              eq_refl eq_refl) as [Hfst Hsnd].
  split; [exact Hfst |].
  exact (Hsnd Scenario.slack_down
           (add_events initial_state
              [PostMessage
                 (Legacy.initial_post_args Scenario.env Scenario.config
                    Scenario.context)
                 (Throw Scenario.slack_down)])
           eq_refl).
Defined.

(** X14: the earlier [success] passes over declared files that are not
    there.  When none of the declared files exists and the post returns,
    the run posts the message, warns once for each declared asset, in the
    order of [Object.entries], warns that nothing was uploaded and returns
    normally: no upload, no update, no error. *)
Theorem legacy_missing_files_are_passed_over
  (w : World) (env : Env.t) (cfg : PluginConfig.t) (ctx : Context.t)
  (r : PostResponse.t) :
  truthy_string (Env.SLACK_TOKEN env) = true ->
  truthy_string (Env.SLACK_CHANNEL env) = true ->
  chat_postMessage w [] (Legacy.initial_post_args env cfg ctx) = Normal r ->
  (forall d tr, In d (JsObject.entries (Legacy.assets cfg)) ->
                existsSync w tr (path_resolve w (fst d)) = false) ->
  Legacy.run w env cfg ctx
  = (Normal tt,
     ([PostMessage (Legacy.initial_post_args env cfg ctx) (Normal r);
       Log LogInfo (":rocket: Initial release message sent: "
                      ++ to_string (PostResponse.ts r))]
        ++ legacy_warnings w (JsObject.entries (Legacy.assets cfg))
        ++ [Log LogWarn
              "No files uploaded. The initial message was not updated."])%list).
Proof.
  intros Htoken Hchannel Hpost Hgone.
  unfold Legacy.run, Legacy.success, Legacy.slackToken.
  rewrite Htoken, Hchannel. cbn [negb orb].
  unfold try_catch, Legacy.try_block.
  unfold bind at 1. unfold postMessage, await at 1.
  cbn [trace initial_state]. rewrite Hpost.
  unfold bind at 1. unfold log at 1. unfold emit at 1.
  unfold bind at 1.
  rewrite (legacy_loop_all_missing w env (PostResponse.ts r) _ Hgone).
  unfold Legacy.update_step, bind, get_state, add_events, log, emit.
  simpl_run. cbn [initial_state downloadLinks List.length].
  change (0 <? 0)%nat with false. cbv iota beta. simpl_run.
  reflexivity.
Qed.

Lemma legacy_missing_files_are_passed_over_witness :
  Legacy.run Scenario.world_file_gone Scenario.env Scenario.config
    Scenario.context
  = (Normal tt,
     [PostMessage
        (Legacy.initial_post_args Scenario.env Scenario.config
           Scenario.context)
        (Normal Scenario.initial_response);
      Log LogInfo ":rocket: Initial release message sent: 111.222";
      Log LogWarn "File not found: /repo/dist/app.bin";
      Log LogWarn "No files uploaded. The initial message was not updated."]).
Proof.
  exact (legacy_missing_files_are_passed_over Scenario.world_file_gone
           Scenario.env Scenario.config Scenario.context
           Scenario.initial_response eq_refl eq_refl eq_refl
           (fun d tr _ => eq_refl)).
Defined.

(** X15: on a release branch the two versions compose the same messages.
    When the branch is no prerelease branch, the message that the current
    [success] posts first and the text it writes back with the download
    links are those of the earlier version, for every configuration;
    the prerelease settings added since change nothing there. *)
Theorem legacy_messages_agree_on_release_branch
  (env : Env.t) (cfg : PluginConfig.t) (ctx : Context.t) :
  isPrerelease ctx = false ->
  Legacy.initial_post_args env cfg ctx = initial_post_args env cfg ctx
  /\ forall links,
      Legacy.updated_text cfg ctx links = updated_text cfg ctx links.
Proof.
  intros Hrelease.
  assert (Hmsg : Legacy.formatMessage cfg ctx = formatMessage cfg ctx).
  { unfold Legacy.formatMessage, formatMessage, Legacy.lastCommitBody,
      lastCommitBody, Legacy.includeLastCommitText, includeLastCommitText,
      Legacy.includeChangelog, includeChangelog, Legacy.rawMessageTemplate,
      rawMessageTemplate.
    rewrite Hrelease. reflexivity. }
  split.
  - unfold Legacy.initial_post_args, initial_post_args. now rewrite Hmsg.
  - intros links. unfold Legacy.updated_text, updated_text, Legacy.lastLine,
      lastLine.
    now rewrite Hmsg, Hrelease.
Qed.

Lemma legacy_messages_agree_on_release_branch_witness :
  Legacy.initial_post_args Scenario.env Scenario.config Scenario.context
  = initial_post_args Scenario.env Scenario.config Scenario.context
  /\ Legacy.updated_text Scenario.config Scenario.context ["link"]
     = updated_text Scenario.config Scenario.context ["link"].
Proof.
  destruct (legacy_messages_agree_on_release_branch Scenario.env
              Scenario.config Scenario.context eq_refl) as [Hpost Htext].
  split; [exact Hpost | exact (Htext ["link"])].
Defined.
